(** * Colour analysis of tone-palette-wizard: a shallow embedding

    This development embeds [src/lib/color-analysis.ts], the image
    pipeline of [src/components/SkinToneAnalyzer.tsx] and the handlers of
    the upload zone, and proves properties of the colour-space
    conversions, the k-means extraction of dominant colours, the
    skin-tone classifier and the pipeline around them.

    Modelling conventions.
    - The conversion [rgbToHsl] and the classifier [analyzeSkinTone]
      compute on IEEE binary64 numbers, the primitive type [float], with
      the operators of module [Double]: every quotient, sum and
      comparison rounds and compares as it does in an engine.
    - A number the code obtains as an integer ([parseInt], [Math.round],
      a byte of the image) is an exact rational, an infinity or NaN, the
      type [num] of module [JS]; the sign of a zero is not represented
      there.  Inside [extractDominantColors] the cluster means and the
      squared distances are exact rationals.
    - A JavaScript string is a [string] of 8-bit characters; every string
      the code builds or slices here is ASCII.
    - A function that can throw returns a [completion].
    - The browser enters through parameters: [Math.sqrt], [Math.random]
      and the 2D context of a canvas. *)

From Stdlib Require Import ZArith QArith Qround Lia Lqa List String Ascii Bool.
From Stdlib Require Import Permutation.
From Stdlib Require Import PrimFloat.
From Stdlib Require Uint63 FloatOps FloatAxioms SpecFloat.
Import ListNotations.

Local Open Scope Z_scope.

(* ================================================================== *)
(** * JavaScript values *)
(* ================================================================== *)

Module JS.

(** ** Numbers *)

(** A number known exactly: a rational, an infinity or NaN. *)
Inductive num : Type :=
| Fin (q : Q)
| PInf
| NInf
| NaN.

(** The relational operator [<]: a comparison with NaN is [false]. *)
Definition lt (a b : num) : bool :=
  match a, b with
  | NaN, _ | _, NaN => false
  | Fin x, Fin y => negb (Qle_bool y x)
  | NInf, (Fin _ | PInf) => true
  | Fin _, PInf => true
  | _, _ => false
  end.

(** [Math.round]: the nearest integer, ties towards [+Infinity]. *)
Definition Math_round (a : num) : num :=
  match a with
  | Fin x => Fin (inject_Z (Qfloor (x + (1 # 2))))
  | _ => a
  end.

Definition of_Z (z : Z) : num := Fin (inject_Z z).

(** ** Strings *)

Local Open Scope string_scope.

Definition hex_alphabet : list ascii :=
  ["0"; "1"; "2"; "3"; "4"; "5"; "6"; "7";
   "8"; "9"; "a"; "b"; "c"; "d"; "e"; "f"]%char.

Definition hex_digit (d : Z) : ascii := nth (Z.to_nat d) hex_alphabet "0"%char.

(** The base-16 digits of a non-negative integer, most significant first. *)
Fixpoint hex_digits (fuel : nat) (n : Z) (acc : string) : string :=
  match fuel with
  | O => acc
  | S fuel' =>
      let acc' := String (hex_digit (n mod 16)) acc in
      if (n / 16 =? 0)%Z then acc' else hex_digits fuel' (n / 16) acc'
  end.

Definition int_toString16 (z : Z) : string :=
  if (z <? 0)%Z
  then String "-" (hex_digits (S (Z.to_nat (Z.log2 (- z)))) (- z) "")
  else hex_digits (S (Z.to_nat (Z.log2 z))) z "".

(** [x.toString(16)].  It is only ever applied to the result of
    [Math.round], so the digits after the radix point of a fractional
    value are not produced. *)
Definition toString16 (a : num) : string :=
  match a with
  | Fin x => int_toString16 (Qfloor x)
  | PInf => "Infinity"
  | NInf => "-Infinity"
  | NaN => "NaN"
  end.

(** [s.slice(i, j)] for [0 <= i <= j]: out-of-range positions are clamped. *)
Definition slice (s : string) (i j : nat) : string := substring i (j - i) s.

(** [parts.join("")]. *)
Definition join (parts : list string) : string := String.concat "" parts.

(** The white space [parseInt] skips, among the 8-bit characters. *)
Definition is_white_space (c : ascii) : bool :=
  let n := nat_of_ascii c in
  ((n =? 32) || (n =? 9) || (n =? 10) || (n =? 11) || (n =? 12) || (n =? 13)
   || (n =? 160))%nat.

Fixpoint trim_start (s : string) : string :=
  match s with
  | String c s' => if is_white_space c then trim_start s' else s
  | EmptyString => s
  end.

Definition hex_value (c : ascii) : option Z :=
  let n := Z.of_nat (nat_of_ascii c) in
  if ((48 <=? n) && (n <=? 57))%Z then Some (n - 48)
  else if ((97 <=? n) && (n <=? 102))%Z then Some (n - 87)
  else if ((65 <=? n) && (n <=? 70))%Z then Some (n - 55)
  else None.

(** The value of the longest prefix of hexadecimal digits; [acc] is [None]
    while no digit has been read. *)
Fixpoint parse_hex_prefix (s : string) (acc : option Z) : option Z :=
  match s with
  | EmptyString => acc
  | String c s' =>
      match hex_value c with
      | Some d =>
          parse_hex_prefix s'
            (Some (16 * match acc with Some a => a | None => 0 end + d))
      | None => acc
      end
  end.

Definition strip_sign (s : string) : Z * string :=
  match s with
  | String "-" s' => (-1, s')
  | String "+" s' => (1, s')
  | _ => (1, s)
  end.

Definition strip_0x (s : string) : string :=
  match s with
  | String "0" (String "x" s') => s'
  | String "0" (String "X" s') => s'
  | _ => s
  end.

(** [parseInt(s, 16)]. *)
Definition parseInt16 (s : string) : num :=
  let '(sign, body) := strip_sign (trim_start s) in
  match parse_hex_prefix (strip_0x body) None with
  | Some v => of_Z (sign * v)
  | None => NaN
  end.

(** ** Completions *)

Inductive error : Type :=
| TypeError
| RangeError.

Inductive completion (A : Type) : Type :=
| Normal (a : A)
| Throw (e : error).

Arguments Normal {A} a.
Arguments Throw {A} e.

Definition bind {A B : Type} (c : completion A) (f : A -> completion B)
  : completion B :=
  match c with
  | Normal a => f a
  | Throw e => Throw e
  end.

End JS.

Declare Scope js_scope.
Delimit Scope js_scope with js.
Bind Scope js_scope with JS.num.
Infix "<?" := JS.lt : js_scope.
Notation "x <- c ;; k" := (JS.bind c (fun x => k))
  (at level 61, c at next level, right associativity).

Import JS.

(* ================================================================== *)
(** * IEEE doubles *)
(* ================================================================== *)

Module Double.

(** The operators [+], [-], [*] and [/] of [float] are those of binary64,
    rounding to nearest, ties to even; [=?], [<?] and [<=?] are the IEEE
    comparisons, false whenever an operand is NaN, and [-0 =? +0]. *)

Local Open Scope float_scope.

(** The double nearest to an integer below [2 ^ 63] in absolute value. *)
Definition ofZ (z : Z) : float :=
  if (z <? 0)%Z then - of_uint63 (Uint63.of_Z (- z))
  else of_uint63 (Uint63.of_Z z).

(** The double of an exact number.  [parseInt] only yields small integers
    and NaN, which are converted without rounding. *)
Definition ofNum (a : num) : float :=
  match a with
  | Fin q => ofZ (Qnum q) / ofZ (Zpos (Qden q))
  | PInf => infinity
  | NInf => neg_infinity
  | NaN => nan
  end.

(** [Math.max] and [Math.min] of two numbers: NaN when either is NaN, and
    [+0] counts as greater than [-0]. *)
Definition max2 (a b : float) : float :=
  if is_nan a || is_nan b then nan
  else if a <? b then b
  else if b <? a then a
  else if get_sign a then b else a.

Definition min2 (a b : float) : float :=
  if is_nan a || is_nan b then nan
  else if a <? b then a
  else if b <? a then b
  else if get_sign a then a else b.

(** [Math.max(a, b, c)] and [Math.min(a, b, c)]. *)
Definition Math_max (a b c : float) : float := max2 (max2 a b) c.
Definition Math_min (a b c : float) : float := min2 (min2 a b) c.

(** The comparisons [<=] and [<] of two doubles, as propositions. *)
Definition le (x y : float) : Prop := (x <=? y) = true.
Definition lt (x y : float) : Prop := (x <? y) = true.

End Double.

(* ================================================================== *)
(** * Colour-space conversions *)
(* ================================================================== *)

Local Open Scope float_scope.

(** [rgbToHsl(r, g, b)].  [===] on numbers and the [case] labels of the
    [switch] are the comparison [=?]. *)
Definition rgbToHsl (r g b : float) : float * float * float :=
  let r := r / 255 in
  let g := g / 255 in
  let b := b / 255 in
  let max := Double.Math_max r g b in
  let min := Double.Math_min r g b in
  let l := (max + min) / 2 in
  if max =? min then (0 * 360, 0 * 100, l * 100)
  else
    let d := max - min in
    let s := if 0.5 <? l then d / (2 - max - min) else d / (max + min) in
    let h :=
      if max =? r then (g - b) / d + (if g <? b then 6 else 0)
      else if max =? g then (b - r) / d + 2
      else if max =? b then (r - g) / d + 4
      else 0 in
    let h := h / 6 in
    (h * 360, s * 100, l * 100).

Local Close Scope float_scope.

(** The per-channel callback of [rgbToHex]. *)
Definition channelToHex (x : num) : string :=
  let hex := toString16 (Math_round x) in
  if (String.length hex =? 1)%nat then ("0" ++ hex)%string else hex.

(** [rgbToHex(r, g, b)]. *)
Definition rgbToHex (r g b : num) : string :=
  ("#" ++ join (map channelToHex [r; g; b]))%string.

(** The decoding [analyzeSkinTone] applies to one colour string. *)
Definition hexChannels (hex : string) : num * num * num :=
  let r := parseInt16 (slice hex 1 3) in
  let g := parseInt16 (slice hex 3 5) in
  let b := parseInt16 (slice hex 5 7) in
  (r, g, b).


(* ================================================================== *)
(** * The skin-tone classifier *)
(* ================================================================== *)

Inductive SkinToneType : Type :=
| warm
| cool
| neutral.

Module Level.
Record t : Type := mk { name : string; hex : string; number : Z }.
End Level.

Module Palette.
Record t : Type := mk { name : string; colors : list string }.
End Palette.

Record Recommendations : Type := mkRecommendations {
  clothing : list string;
  makeup : list string;
  lipColors : list string;
  eyeshadow : list string
}.

Record SkinToneAnalysis : Type := mkSkinToneAnalysis {
  dominantColors : list string;
  skinToneType : SkinToneType;
  undertone : string;
  skinToneLevel : Level.t;
  outfitPalettes : list Palette.t;
  outfitExamples : list string;
  recommendations : Recommendations
}.

Local Open Scope string_scope.

Definition SKIN_TONE_SCALE : list Level.t :=
  [ Level.mk "Porcelain" "#f6ede4" 1;
    Level.mk "Ivory" "#f3e7db" 2;
    Level.mk "Light Beige" "#f7ead0" 3;
    Level.mk "Warm Beige" "#eadaba" 4;
    Level.mk "Golden Beige" "#d7bd96" 5;
    Level.mk "Tan" "#a07e56" 6;
    Level.mk "Medium Brown" "#825c43" 7;
    Level.mk "Deep Brown" "#604134" 8;
    Level.mk "Dark Espresso" "#3a312a" 9;
    Level.mk "Ebony" "#292421" 10 ].

Definition generateRecommendations (skinToneType : SkinToneType)
  : Recommendations :=
  match skinToneType with
  | warm => {|
      clothing := ["#8B4513"; "#CD853F"; "#DEB887"; "#F4A460"; "#D2691E"; "#FF8C00"];
      makeup := ["#CD853F"; "#DEB887"; "#F4A460"; "#DDBF94"];
      lipColors := ["#CD5C5C"; "#E9967A"; "#FA8072"; "#FF6347"];
      eyeshadow := ["#8B4513"; "#CD853F"; "#DEB887"; "#D2691E"] |}
  | cool => {|
      clothing := ["#4682B4"; "#6495ED"; "#87CEEB"; "#B0C4DE"; "#778899"; "#2F4F4F"];
      makeup := ["#F8F8FF"; "#E6E6FA"; "#D8BFD8"; "#DDA0DD"];
      lipColors := ["#DC143C"; "#B22222"; "#8B0000"; "#FF1493"];
      eyeshadow := ["#4682B4"; "#6495ED"; "#9370DB"; "#8A2BE2"] |}
  | neutral => {|
      clothing := ["#696969"; "#708090"; "#778899"; "#2F4F4F"; "#556B2F"; "#8B4513"];
      makeup := ["#F5F5DC"; "#FFF8DC"; "#FAEBD7"; "#F0E68C"];
      lipColors := ["#CD5C5C"; "#BC8F8F"; "#F08080"; "#E9967A"];
      eyeshadow := ["#CD853F"; "#BC8F8F"; "#D2B48C"; "#DEB887"] |}
  end.

Definition basePalettes (skinToneType : SkinToneType) : list Palette.t :=
  match skinToneType with
  | warm =>
      [ Palette.mk "Earth Tones" ["#8B4513"; "#D2691E"; "#F4A460"; "#DEB887"; "#FFFFFF"];
        Palette.mk "Autumn Spice" ["#B22222"; "#FF8C00"; "#DAA520"; "#CD853F"; "#F5F5DC"];
        Palette.mk "Golden Hour" ["#FFD700"; "#FF6347"; "#CD853F"; "#F4A460"; "#FFFAF0"];
        Palette.mk "Desert Sunset" ["#FF4500"; "#FF8C00"; "#DEB887"; "#F5DEB3"; "#FFFFFF"] ]
  | cool =>
      [ Palette.mk "Ocean Blues" ["#000080"; "#4682B4"; "#87CEEB"; "#E0F6FF"; "#FFFFFF"];
        Palette.mk "Berry Elegance" ["#8B008B"; "#DC143C"; "#FFB6C1"; "#F8F8FF"; "#000000"];
        Palette.mk "Winter Frost" ["#2F4F4F"; "#708090"; "#B0C4DE"; "#F0F8FF"; "#FFFFFF"];
        Palette.mk "Jewel Tones" ["#4B0082"; "#008B8B"; "#9370DB"; "#E6E6FA"; "#FFFFFF"] ]
  | neutral =>
      [ Palette.mk "Classic Neutrals" ["#000000"; "#696969"; "#D3D3D3"; "#F5F5F5"; "#FFFFFF"];
        Palette.mk "Sage & Stone" ["#556B2F"; "#808080"; "#D2B48C"; "#F5F5DC"; "#FFFFFF"];
        Palette.mk "Modern Minimalist" ["#2F4F4F"; "#778899"; "#B0C4DE"; "#F8F8FF"; "#FFFFFF"];
        Palette.mk "Warm Greys" ["#8B4513"; "#696969"; "#BC8F8F"; "#F5F5DC"; "#FFFFFF"] ]
  end.

(** [generateOutfitPalettes(skinToneType, skinLevel)].  [palettes] aliases
    the entry of the freshly built [basePalettes] object, so the [push]
    is an append to that entry. *)
Definition generateOutfitPalettes (skinToneType : SkinToneType) (skinLevel : Z)
  : list Palette.t :=
  let palettes := basePalettes skinToneType in
  let palettes :=
    if (skinLevel >=? 7)%Z then
      match skinToneType with
      | warm =>
          (palettes ++ [Palette.mk "Rich Jewels"
                          ["#800080"; "#FF6347"; "#DAA520"; "#F4A460"; "#FFFAF0"]])%list
      | cool =>
          (palettes ++ [Palette.mk "Royal Blues"
                          ["#000080"; "#8B008B"; "#DC143C"; "#FFB6C1"; "#FFFFFF"]])%list
      | neutral => palettes
      end
    else palettes in
  firstn 4 palettes.

Definition baseExamples (skinToneType : SkinToneType) : list string :=
  match skinToneType with
  | warm =>
      [ "Terracotta blazer with cream trousers and gold accessories";
        "Olive green sweater with dark denim jeans and brown leather boots" ]
  | cool =>
      [ "Navy blue blouse with grey tailored pants and silver jewelry";
        "Emerald green dress with black heels and pearl accessories" ]
  | neutral =>
      [ "Charcoal grey suit with white shirt and black leather shoes";
        "Sage green cardigan with beige chinos and tan loafers" ]
  end.

(** [generateOutfitExamples(skinToneType, skinLevel)].  The [examples]
    object is a map from category to list; a [push] updates one entry and
    the final lookup reads the updated object. *)
Definition generateOutfitExamples (skinToneType : SkinToneType) (skinLevel : Z)
  : list string :=
  let examples := baseExamples in
  let examples :=
    if (skinLevel >=? 7)%Z then
      match skinToneType with
      | warm => fun t =>
          match t with
          | warm => (examples warm ++
              ["Bold orange top with dark chocolate brown pants and gold statement jewelry"])%list
          | _ => examples t
          end
      | cool => fun t =>
          match t with
          | cool => (examples cool ++
              ["Rich purple blouse with black trousers and silver metallic accessories"])%list
          | _ => examples t
          end
      | neutral => examples
      end
    else examples in
  firstn 2 (examples skinToneType).

Local Open Scope float_scope.

(** The [colorHSLs] array of [analyzeSkinTone]; the channels [parseInt]
    returns enter [rgbToHsl] as doubles. *)
Definition colorHSLs (dominantColors : list string)
  : list (float * float * float) :=
  map (fun hex =>
         let '(r, g, b) := hexChannels hex in
         rgbToHsl (Double.ofNum r) (Double.ofNum g) (Double.ofNum b))
      dominantColors.

(** [colorHSLs.reduce((sum, [, , l]) => sum + l, 0) / colorHSLs.length]. *)
Definition avgLightness (hsls : list (float * float * float)) : float :=
  fold_left (fun sum '(_, _, l) => sum + l) hsls 0
  / Double.ofZ (Z.of_nat (List.length hsls)).

(** [colorHSLs.reduce((sum, [h]) => sum + h, 0) / colorHSLs.length]. *)
Definition avgHue (hsls : list (float * float * float)) : float :=
  fold_left (fun sum '(h, _, _) => sum + h) hsls 0
  / Double.ofZ (Z.of_nat (List.length hsls)).

(** The index into [SKIN_TONE_SCALE] chosen by the [if]/[else if] chain. *)
Definition levelIndex (avgLightness : float) : nat :=
  if 85 <=? avgLightness then 0
  else if 80 <=? avgLightness then 1
  else if 75 <=? avgLightness then 2
  else if 70 <=? avgLightness then 3
  else if 65 <=? avgLightness then 4
  else if 55 <=? avgLightness then 5
  else if 45 <=? avgLightness then 6
  else if 35 <=? avgLightness then 7
  else if 25 <=? avgLightness then 8
  else 9.

(** The pair [(skinToneType, undertone)] chosen from the average hue. *)
Definition classifyHue (avgHue : float) : SkinToneType * string :=
  if (20 <=? avgHue) && (avgHue <=? 50) then (warm, "Golden/Yellow")
  else if (300 <=? avgHue) || (avgHue <=? 20) then (cool, "Pink/Red")
  else (neutral, "Balanced").

Local Close Scope float_scope.

(** [analyzeSkinTone(dominantColors)].  Reading [.number] of an undefined
    table entry would throw a TypeError. *)
Definition analyzeSkinTone (dominantColors : list string)
  : completion SkinToneAnalysis :=
  let hsls := colorHSLs dominantColors in
  let avgLightness := avgLightness hsls in
  match nth_error SKIN_TONE_SCALE (levelIndex avgLightness) with
  | None => Throw TypeError
  | Some skinToneLevel =>
      let avgHue := avgHue hsls in
      let '(skinToneType, undertone) := classifyHue avgHue in
      let recommendations := generateRecommendations skinToneType in
      let outfitPalettes :=
        generateOutfitPalettes skinToneType (Level.number skinToneLevel) in
      let outfitExamples :=
        generateOutfitExamples skinToneType (Level.number skinToneLevel) in
      Normal {|
        dominantColors := dominantColors;
        skinToneType := skinToneType;
        undertone := undertone;
        skinToneLevel := skinToneLevel;
        outfitPalettes := outfitPalettes;
        outfitExamples := outfitExamples;
        recommendations := recommendations |}
  end.


(* ================================================================== *)
(** * Dominant-colour extraction by k-means *)
(* ================================================================== *)

(** A sampled pixel is a triple of bytes; a centroid is a triple of
    numbers.  Every number inside [extractDominantColors] is finite: the
    bytes of the buffer, their differences and squares, and the means of
    non-empty clusters.  They are carried as rationals, and only
    [minDistance], which starts at [Infinity], is a [num]. *)
Definition pixel : Type := Z * Z * Z.
Definition centroid : Type := Q * Q * Q.

(** [a[i] = v] for [i] below the length of [a]; the code never assigns at
    or beyond the length, and the list is left as it is there. *)
Fixpoint array_set {A : Type} (a : list A) (i : nat) (v : A) : list A :=
  match a, i with
  | [], _ => []
  | _ :: rest, O => v :: rest
  | x :: rest, S i' => x :: array_set rest i' v
  end.

(** The sampling filter.  A read beyond the buffer gives [undefined], and
    every comparison with [undefined] is false. *)
Definition keepPixel (r g b alpha : Z) : bool :=
  ((alpha >? 200) && (r >? 30) && (g >? 30) && (b >? 30) &&
   (r <? 250) && (g <? 250) && (b <? 250))%Z.

(** The body of the sampling loop at offset [i]. *)
Definition samplePixel (data : list Z) (i : nat) (pixels : list pixel)
  : list pixel :=
  match nth_error data i, nth_error data (i + 1),
        nth_error data (i + 2), nth_error data (i + 3) with
  | Some r, Some g, Some b, Some alpha =>
      if keepPixel r g b alpha then (pixels ++ [(r, g, b)])%list else pixels
  | _, _, _, _ => pixels
  end.

(** [for (let i = ...; i < data.length; i += 16)]. *)
Fixpoint sampleLoop (fuel : nat) (data : list Z) (i : nat) (pixels : list pixel)
  : list pixel :=
  match fuel with
  | O => pixels
  | S fuel' =>
      if (i <? List.length data)%nat
      then sampleLoop fuel' data (i + 16) (samplePixel data i pixels)
      else pixels
  end.

Definition samplePixels (data : list Z) : list pixel :=
  sampleLoop (List.length data) data 0 [].

Definition sumBy {A : Type} (f : A -> Q) (l : list A) : Q :=
  fold_left (fun sum p => (sum + f p)%Q) l 0%Q.

(** The new centroid of a cluster: the mean of each channel. *)
Definition clusterMean (cluster : list pixel) : centroid :=
  let n := inject_Z (Z.of_nat (List.length cluster)) in
  let avgR := (sumBy (fun '(r, _, _) => inject_Z r) cluster / n)%Q in
  let avgG := (sumBy (fun '(_, g, _) => inject_Z g) cluster / n)%Q in
  let avgB := (sumBy (fun '(_, _, b) => inject_Z b) cluster / n)%Q in
  (avgR, avgG, avgB).

(** [clusters.forEach((cluster, index) => ...)] of the update step. *)
Fixpoint updateCentroids (clusters : list (list pixel)) (index : nat)
    (centroids : list centroid) : list centroid :=
  match clusters with
  | [] => centroids
  | cluster :: rest =>
      updateCentroids rest (S index)
        (if (0 <? List.length cluster)%nat
         then array_set centroids index (clusterMean cluster)
         else centroids)
  end.

(** [clusters[closestCluster].push(pixel)]; calling [push] on an
    undefined entry throws a TypeError. *)
Definition pushPixel (clusters : list (list pixel)) (closestCluster : nat)
    (p : pixel) : completion (list (list pixel)) :=
  match nth_error clusters closestCluster with
  | Some cluster =>
      Normal (array_set clusters closestCluster (cluster ++ [p])%list)
  | None => Throw TypeError
  end.

Section Extraction.

(** [Math.sqrt] on the non-negative finite values it is applied to, and
    the value returned by the [n]-th call of [Math.random]. *)
Variable Math_sqrt : Q -> Q.
Variable Math_random : nat -> Q.

Definition distanceTo (p : pixel) (c : centroid) : Q :=
  let '(p0, p1, p2) := p in
  let '(c0, c1, c2) := c in
  Math_sqrt ((inject_Z p0 - c0) ^ 2 + (inject_Z p1 - c1) ^ 2
             + (inject_Z p2 - c2) ^ 2)%Q.

(** [centroids.forEach((centroid, index) => ...)] of the assignment
    step, from position [index] on. *)
Fixpoint closestLoop (p : pixel) (centroids : list centroid) (index : nat)
    (minDistance : num) (closestCluster : nat) : nat :=
  match centroids with
  | [] => closestCluster
  | c :: rest =>
      let distance := Fin (distanceTo p c) in
      if (distance <? minDistance)%js
      then closestLoop p rest (S index) distance index
      else closestLoop p rest (S index) minDistance closestCluster
  end.

Definition closestCluster (p : pixel) (centroids : list centroid) : nat :=
  closestLoop p centroids 0 PInf 0.

(** [pixels.forEach(pixel => ...)]. *)
Fixpoint assignPixels (pixels : list pixel) (centroids : list centroid)
    (clusters : list (list pixel)) : completion (list (list pixel)) :=
  match pixels with
  | [] => Normal clusters
  | p :: rest =>
      clusters' <- pushPixel clusters (closestCluster p centroids) p ;;
      assignPixels rest centroids clusters'
  end.

(** One pass of the [iter] loop. *)
Definition kmeansRound (k : nat) (pixels : list pixel)
    (centroids : list centroid) : completion (list centroid) :=
  clusters <- assignPixels pixels centroids (repeat [] k) ;;
  Normal (updateCentroids clusters 0 centroids).

Fixpoint kmeansLoop (rounds k : nat) (pixels : list pixel)
    (centroids : list centroid) : completion (list centroid) :=
  match rounds with
  | O => Normal centroids
  | S rounds' =>
      centroids' <- kmeansRound k pixels centroids ;;
      kmeansLoop rounds' k pixels centroids'
  end.

(** [pixels[Math.floor(Math.random() * pixels.length)]]. *)
Definition randomPixel (pixels : list pixel) (call : nat) : option pixel :=
  let index :=
    Qfloor (Math_random call * inject_Z (Z.of_nat (List.length pixels))) in
  if (index <? 0)%Z then None else nth_error pixels (Z.to_nat index).

(** The initialisation loop with [remaining] iterations left, [i] being
    the loop counter.  Spreading an undefined entry throws a TypeError. *)
Fixpoint initCentroids (pixels : list pixel) (remaining i : nat)
    (centroids : list centroid) : completion (list centroid) :=
  match remaining with
  | O => Normal centroids
  | S remaining' =>
      match randomPixel pixels i with
      | Some (r, g, b) =>
          initCentroids pixels remaining' (S i)
            (centroids ++ [(inject_Z r, inject_Z g, inject_Z b)])%list
      | None => Throw TypeError
      end
  end.

(** [extractDominantColors(imageData, k)], on the byte array
    [imageData.data] and a non-negative integer [k]. *)
Definition extractDominantColors (data : list Z) (k : nat)
  : completion (list string) :=
  let pixels := samplePixels data in
  if (List.length pixels =? 0)%nat then Normal []
  else
    centroids <- initCentroids pixels k 0 [] ;;
    centroids <- kmeansLoop 10 k pixels centroids ;;
    Normal (map (fun '(r, g, b) => rgbToHex (Fin r) (Fin g) (Fin b))
                centroids).

End Extraction.


(* ================================================================== *)
(** * The face region *)
(* ================================================================== *)

Module ImageData.
Record t : Type := mk { data : list Z; width : Z; height : Z }.
End ImageData.

(** A 2D rendering context, as far as the code uses it:
    [getImageData(sx, sy, sw, sh)] returns the pixels of a rectangle, or
    throws a DOMException ([None]). *)
Record Context2D : Type := mkContext2D {
  getImageData : Z -> Z -> Z -> Z -> option ImageData.t
}.

(** A canvas: its size and what [getContext('2d')] returns, which is the
    same at every call. *)
Module Canvas.
Record t : Type := mk { width : Z; height : Z; getContext : option Context2D }.
End Canvas.

(** What a call of [detectFaceRegion] comes to. *)
Inductive regionResult : Type :=
| Region (imageData : ImageData.t)
| NoRegion
| RegionThrows.

(** The rectangle [detectFaceRegion] asks for: [centerX], [centerY],
    [width] and [height]. *)
Definition faceRect (canvasWidth canvasHeight : Z) : Z * Z * Z * Z :=
  let centerX := Qfloor (inject_Z canvasWidth * (3 # 10)) in
  let centerY := Qfloor (inject_Z canvasHeight * (2 # 10)) in
  let width := Qfloor (inject_Z canvasWidth * (4 # 10)) in
  let height := Qfloor (inject_Z canvasHeight * (6 # 10)) in
  (centerX, centerY, width, height).

(** [detectFaceRegion(canvas)]. *)
Definition detectFaceRegion (canvas : Canvas.t) : regionResult :=
  match Canvas.getContext canvas with
  | None => NoRegion
  | Some ctx =>
      match getImageData ctx 0 0 (Canvas.width canvas) (Canvas.height canvas) with
      | None => RegionThrows
      | Some imageData =>
          let '(centerX, centerY, width, height) :=
            faceRect (Canvas.width canvas) (Canvas.height canvas) in
          match getImageData ctx centerX centerY width height with
          | None => RegionThrows
          | Some region => Region region
          end
      end
  end.

Module DoubleRect.

Local Open Scope float_scope.

(** [Math.floor] of a double, as an integer; an infinity or NaN, which an
    argument of [getImageData] turns into 0, gives 0. *)
Definition floorZ (x : float) : Z :=
  if is_nan x || is_infinity x then 0%Z
  else
    let '(m, e) := frshiftexp x in
    let mantissa := Uint63.to_Z (normfr_mantissa m) in
    let exponent := (Uint63.to_Z e - FloatOps.shift - 53)%Z in
    (* [x] is [mantissa * 2 ^ exponent], up to its sign *)
    let n := if x <? 0 then (- mantissa)%Z else mantissa in
    if (0 <=? exponent)%Z then Z.shiftl n exponent
    else Z.shiftr n (- exponent).

(** The rectangle computed in double arithmetic, with the double
    constants [0.3], [0.2], [0.4] and [0.6]. *)
Definition faceRect (canvasWidth canvasHeight : Z) : Z * Z * Z * Z :=
  let centerX := floorZ (Double.ofZ canvasWidth * 0x1.3333333333333p-2) in
  let centerY := floorZ (Double.ofZ canvasHeight * 0x1.999999999999ap-3) in
  let width := floorZ (Double.ofZ canvasWidth * 0x1.999999999999ap-2) in
  let height := floorZ (Double.ofZ canvasHeight * 0x1.3333333333333p-1) in
  (centerX, centerY, width, height).

End DoubleRect.


(* ================================================================== *)
(** * The analysis of an uploaded image *)
(* ================================================================== *)

(** What [processImage] leaves in the state of the component: an
    analysis, the message of an [Error] it threw itself, or the message
    of an error thrown by the engine, which the code does not choose. *)
Inductive outcome : Type :=
| Analysed (analysis : SkinToneAnalysis)
| Failed (message : string)
| EngineError.

Section ProcessImage.

Variable Math_sqrt : Q -> Q.
Variable Math_random : nat -> Q.

(** [processImage], from the canvas the image has been drawn on, as in
    the version of the component that goes from the drawing straight to
    [detectFaceRegion]; the loading of the file is outside the model. *)
Definition processImage (canvas : Canvas.t) : outcome :=
  match Canvas.getContext canvas with
  | None => Failed "Could not get canvas context"
  | Some ctx =>
      match detectFaceRegion canvas with
      | RegionThrows => EngineError
      | NoRegion => Failed "Could not detect face region in the image"
      | Region faceImageData =>
          match extractDominantColors Math_sqrt Math_random
                  (ImageData.data faceImageData) 14 with
          | Throw _ => EngineError
          | Normal dominantColors =>
              if (List.length dominantColors =? 0)%nat
              then Failed "Could not extract skin tone colors from the image"
              else
                match analyzeSkinTone dominantColors with
                | Throw _ => EngineError
                | Normal skinAnalysis => Analysed skinAnalysis
                end
          end
      end
  end.

End ProcessImage.

(* ================================================================== *)
(** * The upload zone *)
(* ================================================================== *)

Module File.
Record t : Type := mk { name : string; type : string }.
End File.

(** [s.startsWith(searchString)]. *)
Definition startsWith (s searchString : string) : bool :=
  String.prefix searchString s.

(** The test both handlers apply to a file. *)
Definition isImage (file : File.t) : bool :=
  startsWith (File.type file) "image/".

(** [handleDrop]: the file passed to [onImageUpload], if any, among the
    dropped files. *)
Definition handleDrop (files : list File.t) : option File.t :=
  find (fun file => startsWith (File.type file) "image/") files.

(** [handleFileInput]: the file passed to [onImageUpload], if any;
    [files] is [None] when [e.target.files] is null. *)
Definition handleFileInput (files : option (list File.t)) : option File.t :=
  match files with
  | None => None
  | Some files =>
      match nth_error files 0 with
      | Some file =>
          if startsWith (File.type file) "image/" then Some file else None
      | None => None
      end
  end.


(* ================================================================== *)
(** * Specification-level notions *)
(* ================================================================== *)

Definition isLowerHex (c : ascii) : bool :=
  let n := nat_of_ascii c in
  (((48 <=? n) && (n <=? 57)) || ((97 <=? n) && (n <=? 102)))%nat.

(** A well-formed colour string: ["#"] followed by six lowercase
    hexadecimal digits. *)
Definition wellFormedHex (s : string) : bool :=
  match s with
  | String "#" rest =>
      (String.length rest =? 6)%nat
      && forallb isLowerHex (list_ascii_of_string rest)
  | _ => false
  end.

(** The two-digit lowercase rendering of an integer of [0, 255]. *)
Definition twoDigits (z : Z) : string :=
  String (hex_digit (z / 16)) (String (hex_digit (z mod 16)) "").

(** The integer [Math.round] yields on a rational. *)
Definition roundZ (x : Q) : Z := Qfloor (x + (1 # 2)).

(** The channel values that round into [0, 255]. *)
Definition roundsToByte (x : Q) : Prop :=
  (- (1 # 2) <= x /\ x < 255 + (1 # 2))%Q.

(** The padded rendering of an integer, as [channelToHex] computes it. *)
Definition paddedHex (z : Z) : string :=
  let hex := int_toString16 z in
  if (String.length hex =? 1)%nat then ("0" ++ hex)%string else hex.

(** Syntactic equality test on numbers. *)
Definition num_beq (a b : num) : bool :=
  match a, b with
  | Fin (x # p), Fin (y # q) => (x =? y)%Z && (p =? q)%positive
  | PInf, PInf | NInf, NInf | NaN, NaN => true
  | _, _ => false
  end.

(** The three components of a result are numbers within the HSL ranges:
    a hue of [0, 360), a saturation and a lightness of [0, 100]. *)
Definition hslInRange (hsl : float * float * float) : Prop :=
  let '(h, s, l) := hsl in
  (Double.le 0 h /\ Double.lt h 360)
  /\ (Double.le 0 s /\ Double.le s 100)
  /\ (Double.le 0 l /\ Double.le l 100).

(** The hue and lightness [analyzeSkinTone] derives from one colour. *)
Definition hueOf (hex : string) : float :=
  let '(r, g, b) := hexChannels hex in
  let '(h, _, _) :=
    rgbToHsl (Double.ofNum r) (Double.ofNum g) (Double.ofNum b) in h.

Definition lightnessOf (hex : string) : float :=
  let '(r, g, b) := hexChannels hex in
  let '(_, _, l) :=
    rgbToHsl (Double.ofNum r) (Double.ofNum g) (Double.ofNum b) in l.

(** The arithmetic mean of a list of doubles as a [reduce] computes it:
    their sum, taken from zero in the order of the list, over their
    count. *)
Definition arithmeticMean (xs : list float) : float :=
  (fold_left PrimFloat.add xs 0 / Double.ofZ (Z.of_nat (List.length xs)))%float.

(** The table entry selected for an average lightness. *)
Definition levelOf (a : float) : Level.t :=
  nth (levelIndex a) SKIN_TONE_SCALE (Level.mk "" "" 0).

Definition ebony : Level.t := Level.mk "Ebony" "#292421" 10.

(** The lightness table of the specification: thresholds from the top,
    each with its level; the first threshold the average reaches wins. *)
Definition lightnessTable : list (float * Level.t) :=
  [ (85, Level.mk "Porcelain" "#f6ede4" 1);
    (80, Level.mk "Ivory" "#f3e7db" 2);
    (75, Level.mk "Light Beige" "#f7ead0" 3);
    (70, Level.mk "Warm Beige" "#eadaba" 4);
    (65, Level.mk "Golden Beige" "#d7bd96" 5);
    (55, Level.mk "Tan" "#a07e56" 6);
    (45, Level.mk "Medium Brown" "#825c43" 7);
    (35, Level.mk "Deep Brown" "#604134" 8);
    (25, Level.mk "Dark Espresso" "#3a312a" 9) ]%float.

Fixpoint firstMatch (avg : float) (table : list (float * Level.t))
    (otherwise : Level.t) : Level.t :=
  match table with
  | [] => otherwise
  | (threshold, level) :: rest =>
      if (threshold <=? avg)%float then level
      else firstMatch avg rest otherwise
  end.

(** The pixel of index [p] of an RGBA buffer, when all four of its bytes
    are there. *)
Definition rgbaAt (data : list Z) (p : nat) : option (Z * Z * Z * Z) :=
  match nth_error data (4 * p), nth_error data (4 * p + 1),
        nth_error data (4 * p + 2), nth_error data (4 * p + 3) with
  | Some r, Some g, Some b, Some alpha => Some (r, g, b, alpha)
  | _, _, _, _ => None
  end.

(** The filter of the specification: alpha above 200 and every channel
    strictly between 30 and 250. *)
Definition passesFilter (rgba : Z * Z * Z * Z) : bool :=
  let '(r, g, b, alpha) := rgba in
  ((200 <? alpha) && ((30 <? r) && (r <? 250)) && ((30 <? g) && (g <? 250))
   && ((30 <? b) && (b <? 250)))%Z.

(** The sampled pixels are those of index [0, 4, 8, ...]; one of them
    survives when it passes the filter. *)
Definition survivesAt (data : list Z) (j : nat) : bool :=
  match rgbaAt data (4 * j) with
  | Some rgba => passesFilter rgba
  | None => false
  end.

Definition pixelInRange (p : pixel) : Prop :=
  let '(r, g, b) := p in
  (31 <= r <= 249 /\ 31 <= g <= 249 /\ 31 <= b <= 249)%Z.

Definition centroidInRange (c : centroid) : Prop :=
  let '(r, g, b) := c in
  ((31 <= r /\ r <= 249) /\ (31 <= g /\ g <= 249) /\ (31 <= b /\ b <= 249))%Q.

(** A colour string with a channel [parseInt] cannot read. *)
Definition unreadable (c : string) : Prop :=
  let '(r, g, b) := hexChannels c in r = NaN \/ g = NaN \/ b = NaN.

(** A colour string that decodes to three equal channels. *)
Definition grey (c : string) : Prop :=
  exists x : Q, hexChannels c = (Fin x, Fin x, Fin x).

(** The pixel the sampling loop keeps at its [j]-th iteration, if any. *)
Definition survivorAt (data : list Z) (j : nat) : list pixel :=
  match rgbaAt data (4 * j) with
  | Some (r, g, b, alpha) =>
      if passesFilter (r, g, b, alpha) then [(r, g, b)] else []
  | None => []
  end.

(** The number of iterations of the sampling loop. *)
Definition sampleCount (data : list Z) : nat := (List.length data + 15) / 16.

(** A box of channel values, as lower and upper corners. *)
Definition pixelInBox (lo hi : pixel) (p : pixel) : Prop :=
  let '(loR, loG, loB) := lo in
  let '(hiR, hiG, hiB) := hi in
  let '(r, g, b) := p in
  (loR <= r <= hiR /\ loG <= g <= hiG /\ loB <= b <= hiB)%Z.

Definition centroidInBox (lo hi : pixel) (c : centroid) : Prop :=
  let '(loR, loG, loB) := lo in
  let '(hiR, hiG, hiB) := hi in
  let '(r, g, b) := c in
  ((inject_Z loR <= r /\ r <= inject_Z hiR)
   /\ (inject_Z loG <= g /\ g <= inject_Z hiG)
   /\ (inject_Z loB <= b /\ b <= inject_Z hiB))%Q.

(** The string [extractDominantColors] renders for a centroid. *)
Definition renderCentroid (c : centroid) : string :=
  let '(r, g, b) := c in rgbToHex (Fin r) (Fin g) (Fin b).

(** The integers [from], [from + 1], ..., [count] of them. *)
Fixpoint upFrom (from : Z) (count : nat) : list Z :=
  match count with
  | O => []
  | S count' => from :: upFrom (from + 1) count'
  end.

(** What the HTML standard asks of [getImageData]: an IndexSizeError for
    a rectangle without width or height, and otherwise the pixels of the
    rectangle, four bytes each. *)
Definition conforming (ctx : Context2D) : Prop :=
  forall sx sy sw sh : Z,
    ((sw = 0 \/ sh = 0)%Z -> getImageData ctx sx sy sw sh = None)
    /\ ((0 < sw)%Z -> (0 < sh)%Z ->
        exists region,
          getImageData ctx sx sy sw sh = Some region
          /\ ImageData.width region = sw
          /\ ImageData.height region = sh
          /\ Z.of_nat (List.length (ImageData.data region)) = (4 * sw * sh)%Z).

(** A context over a canvas of transparent black. *)
Definition blank_context : Context2D :=
  {| getImageData := fun _ _ sw sh =>
       if ((sw <=? 0) || (sh <=? 0))%Z then None
       else Some (ImageData.mk (repeat 0%Z (Z.to_nat (4 * sw * sh))) sw sh) |}.

Definition sameRect (a b : Z * Z * Z * Z) : bool :=
  let '(x, y, w, h) := a in
  let '(x', y', w', h') := b in
  ((x =? x') && (y =? y') && (w =? w') && (h =? h'))%Z.

(** A binary64 value that is positive, finite or infinite. *)
Definition positiveSF (x : SpecFloat.spec_float) : Prop :=
  match x with
  | SpecFloat.S754_finite false _ _ | SpecFloat.S754_infinity false => True
  | _ => False
  end.

(** The length of an array: every JavaScript array has fewer than
    [2 ^ 32] elements. *)
Definition arrayLength (n : nat) : Prop := (Z.of_nat n < 2 ^ 32)%Z.

(** The integers [0, 1, ..., 255] as doubles. *)
Definition byteDoubles : list float := map Double.ofZ (upFrom 0 256).

(** The test of one conversion: the three ranges, and a hue of at most 60
    when the channels are in the order [b <= g <= r]. *)
Definition hslChecked (r g b : float) : bool :=
  let '(h, s, l) := rgbToHsl r g b in
  ((0 <=? h) && (h <? 360) && (0 <=? s) && (s <=? 100)
   && (0 <=? l) && (l <=? 100)
   && (if (b <=? g) && (g <=? r) then h <=? 60 else true))%float.

(** What [parseInt] returns on a slice of two characters: NaN or an
    integer from [-15] to [255]. *)
Definition smallInt (a : num) : bool :=
  match a with
  | NaN => true
  | Fin (n # 1) => ((-15 <=? n) && (n <=? 255))%Z
  | _ => false
  end.

(** The 8-bit characters, and the strings of at most two of them. *)
Definition allAscii : list ascii := map ascii_of_nat (seq 0 256).

Definition shortStrings : list string :=
  (EmptyString :: map (fun c => String c EmptyString) allAscii
   ++ flat_map (fun c => map (fun d => String c (String d EmptyString)) allAscii)
        allAscii)%list.

(** A colour string that decodes to three integers of [31, 249]. *)
Definition sampledColour (c : string) : Prop :=
  exists r g b : Z,
    hexChannels c = (of_Z r, of_Z g, of_Z b)
    /\ (31 <= r <= 249)%Z /\ (31 <= g <= 249)%Z /\ (31 <= b <= 249)%Z.

(* ================================================================== *)
(** * Sample inputs *)
(* ================================================================== *)

(** A dyadic approximation of the square root, used to run the
    extraction on concrete buffers. *)
Definition sqrt_dyadic (q : Q) : Q :=
  (inject_Z (Z.sqrt (Qfloor (q * inject_Z (2 ^ 40)))) / inject_Z (2 ^ 20))%Q.

(** The values a run of [Math.random] could return. *)
Definition demo_random (n : nat) : Q :=
  match n with
  | 0%nat => 0
  | 1%nat => 1 # 2
  | _ => 9 # 10
  end.

(** A buffer of thirteen pixels; those of index 0, 4, 8 and 12 are
    sampled, and the third of them is black. *)
Definition demo_data : list Z :=
  ([200; 150; 120; 255] ++ repeat 0 12 ++
   [100; 90; 80; 255] ++ repeat 0 12 ++
   [0; 0; 0; 255] ++ repeat 0 12 ++
   [210; 160; 130; 255])%list%Z.

(** Four colours whose lightness values have the exact mean 25, in two
    orders. *)
Definition darkColors : list string :=
  ["#462424"; "#824141"; "#382d2d"; "#3a3232"]%string.

Definition darkColorsPermuted : list string :=
  ["#382d2d"; "#462424"; "#3a3232"; "#824141"]%string.

(** A 10 x 10 buffer filled with one opaque colour. *)
Definition uniform_data : list Z :=
  List.concat (repeat [200; 150; 120; 255]%Z 100).

(** [demo_data] with its unsampled pixels painted white. *)
Definition demo_data_repainted : list Z :=
  ([200; 150; 120; 255] ++ repeat 255 12 ++
   [100; 90; 80; 255] ++ repeat 255 12 ++
   [0; 0; 0; 255] ++ repeat 255 12 ++
   [210; 160; 130; 255])%list%Z.

(** A canvas of 40 by 10 pixels of one opaque colour. *)
Definition skin_context : Context2D :=
  {| getImageData := fun _ _ sw sh =>
       if ((sw <=? 0) || (sh <=? 0))%Z then None
       else Some (ImageData.mk
                    (List.concat (repeat [200; 150; 120; 255]%Z
                                         (Z.to_nat (sw * sh))))
                    sw sh) |}.

Definition skin_canvas : Canvas.t := Canvas.mk 40 10 (Some skin_context).

(* ================================================================== *)
(** * Hexadecimal rendering and parsing *)
(* ================================================================== *)

Section ByteCases.

Variable P : Z -> bool.
Hypothesis all_bytes : forallb P (map Z.of_nat (seq 0 256)) = true.

Lemma byte_cases (z : Z) : (0 <= z < 256)%Z -> P z = true.
Proof.
  intros Hz.
  rewrite forallb_forall in all_bytes.
  apply all_bytes.
  rewrite <- (Z2Nat.id z) by lia.
  apply in_map, in_seq. lia.
Qed.

End ByteCases.

Lemma num_beq_eq (a b : num) : num_beq a b = true -> a = b.
Proof.
  destruct a as [[x p]| | |], b as [[y q]| | |]; simpl; try discriminate; auto.
  intros H. apply andb_true_iff in H as [Hx Hp].
  apply Z.eqb_eq in Hx. apply Pos.eqb_eq in Hp. now subst.
Qed.

Lemma channelToHex_Fin (x : Q) : channelToHex (Fin x) = paddedHex (roundZ x).
Proof.
  unfold channelToHex, paddedHex, roundZ, Math_round, toString16.
  now rewrite Qfloor_Z.
Qed.

Lemma paddedHex_byte (z : Z) : (0 <= z < 256)%Z -> paddedHex z = twoDigits z.
Proof.
  intros Hz. apply String.eqb_eq.
  revert z Hz.
  apply (byte_cases (fun z => String.eqb (paddedHex z) (twoDigits z))).
  vm_compute. reflexivity.
Qed.

Lemma parseInt16_twoDigits (z : Z) :
  (0 <= z < 256)%Z -> parseInt16 (twoDigits z) = of_Z z.
Proof.
  intros Hz. apply num_beq_eq.
  revert z Hz.
  apply (byte_cases (fun z => num_beq (parseInt16 (twoDigits z)) (of_Z z))).
  vm_compute. reflexivity.
Qed.

Lemma twoDigits_lower (z : Z) :
  (0 <= z < 256)%Z ->
  isLowerHex (hex_digit (z / 16)) = true /\ isLowerHex (hex_digit (z mod 16)) = true.
Proof.
  intros Hz. apply andb_true_iff.
  revert z Hz.
  apply (byte_cases (fun z => isLowerHex (hex_digit (z / 16))
                              && isLowerHex (hex_digit (z mod 16)))).
  vm_compute. reflexivity.
Qed.

Lemma roundZ_byte (x : Q) : roundsToByte x -> (0 <= roundZ x < 256)%Z.
Proof.
  intros [Hlo Hhi]. unfold roundZ. split.
  - change 0%Z with (Qfloor 0). apply Qfloor_resp_le. lra.
  - rewrite Zlt_Qlt.
    apply Qle_lt_trans with (x + (1 # 2))%Q; [apply Qfloor_le |].
    change (inject_Z 256) with 256%Q. lra.
Qed.

Lemma channelToHex_byte (x : Q) :
  roundsToByte x -> channelToHex (Fin x) = twoDigits (roundZ x).
Proof.
  intros Hx. rewrite channelToHex_Fin.
  now apply paddedHex_byte, roundZ_byte.
Qed.

Lemma roundZ_inject (z : Z) : roundZ (inject_Z z) = z.
Proof.
  unfold roundZ.
  apply Z.le_antisymm.
  - apply Z.lt_succ_r. rewrite Zlt_Qlt.
    apply Qle_lt_trans with (inject_Z z + (1 # 2))%Q; [apply Qfloor_le |].
    unfold Z.succ. rewrite inject_Z_plus.
    change (inject_Z 1) with 1%Q. lra.
  - rewrite <- (Qfloor_Z z) at 1. apply Qfloor_resp_le. lra.
Qed.

Lemma byte_roundsToByte (z : Z) : (0 <= z <= 255)%Z -> roundsToByte (inject_Z z).
Proof.
  intros [Hlo Hhi]. unfold roundsToByte.
  rewrite Zle_Qle in Hlo, Hhi. simpl in Hlo, Hhi.
  change (inject_Z 255) with 255%Q in Hhi.
  change (inject_Z 0) with 0%Q in Hlo.
  split; lra.
Qed.

(** The shape of [rgbToHex] on channels that round into [0, 255]. *)
Lemma rgbToHex_bytes (r g b : Q) :
  roundsToByte r -> roundsToByte g -> roundsToByte b ->
  rgbToHex (Fin r) (Fin g) (Fin b)
  = ("#" ++ twoDigits (roundZ r) ++ twoDigits (roundZ g)
         ++ twoDigits (roundZ b))%string.
Proof.
  intros Hr Hg Hb. unfold rgbToHex, join. simpl map.
  rewrite !channelToHex_byte by assumption.
  reflexivity.
Qed.

Lemma rgbToHex_wellFormed (r g b : Q) :
  roundsToByte r -> roundsToByte g -> roundsToByte b ->
  wellFormedHex (rgbToHex (Fin r) (Fin g) (Fin b)) = true.
Proof.
  intros Hr Hg Hb. rewrite rgbToHex_bytes by assumption.
  destruct (twoDigits_lower _ (roundZ_byte _ Hr)) as [r1 r2].
  destruct (twoDigits_lower _ (roundZ_byte _ Hg)) as [g1 g2].
  destruct (twoDigits_lower _ (roundZ_byte _ Hb)) as [b1 b2].
  unfold twoDigits. cbn [append wellFormedHex String.length
                           list_ascii_of_string forallb Nat.eqb andb].
  now rewrite r1, r2, g1, g2, b1, b2.
Qed.

Lemma hexChannels_twoDigits (x y z : Z) :
  (0 <= x < 256)%Z -> (0 <= y < 256)%Z -> (0 <= z < 256)%Z ->
  hexChannels ("#" ++ twoDigits x ++ twoDigits y ++ twoDigits z)
  = (of_Z x, of_Z y, of_Z z).
Proof.
  intros Hx Hy Hz.
  rewrite <- (parseInt16_twoDigits x), <- (parseInt16_twoDigits y),
          <- (parseInt16_twoDigits z) by assumption.
  reflexivity.
Qed.

(* ------------------------------------------------------------------ *)
(** ** Claims on the hexadecimal encoding *)
(* ------------------------------------------------------------------ *)

(** C3.  For every integer triple with each channel in [0, 255], decoding
    the string [rgbToHex] produces, by the slices and [parseInt] calls of
    [analyzeSkinTone], gives back exactly the three channels. *)
Theorem hex_round_trip (r g b : Z) :
  (0 <= r <= 255)%Z -> (0 <= g <= 255)%Z -> (0 <= b <= 255)%Z ->
  hexChannels (rgbToHex (of_Z r) (of_Z g) (of_Z b)) = (of_Z r, of_Z g, of_Z b).
Proof.
  intros Hr Hg Hb. unfold of_Z at 1 2 3.
  rewrite rgbToHex_bytes by now apply byte_roundsToByte.
  rewrite !roundZ_inject.
  apply hexChannels_twoDigits; lia.
Qed.

Lemma hex_round_trip_witness :
  hexChannels (rgbToHex (of_Z 200) (of_Z 150) (of_Z 120))
  = (of_Z 200, of_Z 150, of_Z 120).
Proof. apply (hex_round_trip 200 150 120); lia. Defined.





(* ================================================================== *)
(** * Facts on binary64 numbers *)
(* ================================================================== *)

Lemma upFrom_In (count : nat) :
  forall from z : Z,
    (from <= z < from + Z.of_nat count)%Z -> In z (upFrom from count).
Proof.
  induction count as [| count IH]; intros from z Hz; cbn [upFrom].
  - lia.
  - destruct (Z.eq_dec from z) as [-> | Hne]; [now left | right].
    apply IH. lia.
Qed.

Section Binary64.

Import FloatOps FloatAxioms SpecFloat.

(** ** NaN *)

Lemma Prim2SF_nan : Prim2SF nan = S754_nan.
Proof. reflexivity. Qed.

Lemma is_nan_Prim2SF (x : float) : is_nan x = true <-> Prim2SF x = S754_nan.
Proof.
  split.
  - intros H. unfold Prim2SF. now rewrite H.
  - unfold Prim2SF. destruct (is_nan x); [reflexivity |].
    destruct (is_zero x); [discriminate |].
    destruct (is_infinity x); [discriminate |].
    destruct (Z.frexp x) as [r e].
    destruct (shr_fexp _ _ _ _ _) as [mrs e'].
    destruct (shr_m mrs); discriminate.
Qed.

Lemma add_nan_r (x : float) : (x + nan)%float = nan.
Proof.
  apply Prim2SF_inj. rewrite add_spec, Prim2SF_nan.
  now destruct (Prim2SF x).
Qed.

Lemma add_nan_l (x : float) : (nan + x)%float = nan.
Proof.
  apply Prim2SF_inj. rewrite add_spec, Prim2SF_nan. reflexivity.
Qed.

Lemma div_nan_l (x : float) : (nan / x)%float = nan.
Proof.
  apply Prim2SF_inj. rewrite div_spec, Prim2SF_nan. reflexivity.
Qed.

Lemma float_eqb_refl (x : float) : is_nan x = false -> (x =? x)%float = true.
Proof.
  unfold is_nan. intros H. now apply negb_false_iff in H.
Qed.

(** ** Rounding never yields NaN, and keeps a positive value positive *)

Lemma iter_pos_invariant {A : Type} (f : A -> A) (P : A -> Prop) :
  (forall x, P x -> P (f x)) ->
  forall (p : positive) (x : A), P x -> P (iter_pos f p x).
Proof.
  intros Hf. induction p as [p IH | p IH |]; intros x Hx; cbn [iter_pos]; auto.
Qed.

Lemma shr_1_half (mrs : shr_record) :
  0 <= shr_m mrs -> shr_m (shr_1 mrs) = shr_m mrs / 2.
Proof.
  destruct mrs as [m r s]. cbn [shr_m]. intros Hm.
  destruct m as [| [p | p |] | p]; cbn [shr_1 shr_m]; try lia;
    Z.to_euclidean_division_equations; lia.
Qed.

Lemma shr_iter (p : positive) (mrs : shr_record) :
  0 <= shr_m mrs -> shr_m (iter_pos shr_1 p mrs) = shr_m mrs / 2 ^ Zpos p.
Proof.
  assert (Hnn : forall q x, 0 <= shr_m x -> 0 <= shr_m (iter_pos shr_1 q x)).
  { intros q. apply (iter_pos_invariant shr_1 (fun x => 0 <= shr_m x)).
    intros x Hx. rewrite shr_1_half by assumption. apply Z.div_pos; lia. }
  assert (Hp : 0 < 2 ^ Zpos p) by (apply Z.pow_pos_nonneg; lia).
  revert mrs. induction p as [p IH | p IH |]; intros mrs Hm; cbn [iter_pos].
  - assert (Hq : 0 < 2 ^ Zpos p) by (apply Z.pow_pos_nonneg; lia).
    assert (H1 : 0 <= shr_m (shr_1 mrs))
      by (rewrite shr_1_half by assumption; apply Z.div_pos; lia).
    rewrite (IH Hq) by now apply Hnn.
    rewrite (IH Hq) by assumption.
    rewrite shr_1_half by assumption.
    rewrite !Z.div_div by lia.
    f_equal. change (Zpos p~1) with (2 * Zpos p + 1).
    rewrite <- Z.pow_add_r, <- Z.pow_succ_r by lia. f_equal. lia.
  - assert (Hq : 0 < 2 ^ Zpos p) by (apply Z.pow_pos_nonneg; lia).
    rewrite (IH Hq) by now apply Hnn.
    rewrite (IH Hq) by assumption.
    rewrite Z.div_div by lia.
    f_equal. change (Zpos p~0) with (2 * Zpos p).
    rewrite <- Z.pow_add_r by lia. f_equal. lia.
  - apply shr_1_half. assumption.
Qed.

Lemma shr_record_of_loc_m (m : Z) (l : location) :
  shr_m (shr_record_of_loc m l) = m.
Proof. now destruct l as [| []]. Qed.

Lemma digits2_pos_lower (p : positive) :
  2 ^ (Zpos (digits2_pos p) - 1) <= Zpos p.
Proof.
  induction p as [p IH | p IH |]; cbn [digits2_pos].
  - rewrite Pos2Z.inj_succ. change (Zpos p~1) with (2 * Zpos p + 1).
    replace (Z.succ (Zpos (digits2_pos p)) - 1)
      with (Z.succ (Zpos (digits2_pos p) - 1)) by lia.
    rewrite Z.pow_succ_r by lia. lia.
  - rewrite Pos2Z.inj_succ. change (Zpos p~0) with (2 * Zpos p).
    replace (Z.succ (Zpos (digits2_pos p)) - 1)
      with (Z.succ (Zpos (digits2_pos p) - 1)) by lia.
    rewrite Z.pow_succ_r by lia. lia.
  - simpl. lia.
Qed.

Lemma emin_value : SpecFloat.emin prec emax = -1074.
Proof. reflexivity. Qed.

(** Shifting a mantissa to its canonical exponent. *)
Lemma shr_fexp_nonneg (m e : Z) (l : location) :
  0 <= m -> 0 <= shr_m (fst (shr_fexp prec emax m e l)).
Proof.
  intros Hm. unfold shr_fexp, shr.
  destruct (fexp prec emax (Zdigits2 m + e) - e) as [| n | n];
    cbn [fst]; rewrite ?shr_iter; rewrite ?shr_record_of_loc_m;
    try assumption.
  apply Z.div_pos; [assumption | apply Z.pow_pos_nonneg; lia].
Qed.

Lemma shr_fexp_pos (m e : Z) (l : location) :
  0 < m -> -1074 <= e ->
  0 < shr_m (fst (shr_fexp prec emax m e l))
  /\ -1074 <= snd (shr_fexp prec emax m e l).
Proof.
  intros Hm He. unfold shr_fexp, shr.
  destruct m as [| p |]; try lia. cbn [Zdigits2].
  unfold fexp. rewrite emin_value. unfold prec.
  pose proof (digits2_pos_lower p) as Hd.
  set (d := Zpos (digits2_pos p)) in *.
  destruct (Z.max (d + e - 53) (-1074) - e) as [| n | n] eqn:En;
    cbn [fst snd]; rewrite ?shr_record_of_loc_m; try (split; lia).
  rewrite shr_iter by (rewrite shr_record_of_loc_m; lia).
  rewrite shr_record_of_loc_m.
  assert (Hn : Zpos n = d - 53) by lia.
  split; [| lia].
  apply Z.div_str_pos. split; [apply Z.pow_pos_nonneg; lia |].
  apply Z.le_trans with (2 ^ (d - 1)); [| exact Hd].
  apply Z.pow_le_mono_r; lia.
Qed.

Lemma round_nearest_even_bounds (m : Z) (l : location) :
  m <= round_nearest_even m l <= m + 1.
Proof.
  destruct l as [| []]; cbn [round_nearest_even]; try lia.
  destruct (Z.even m); lia.
Qed.

Lemma binary_round_aux_not_nan (sx : bool) (mx ex : Z) (lx : location) :
  0 <= mx -> binary_round_aux prec emax sx mx ex lx <> S754_nan.
Proof.
  intros Hm. unfold binary_round_aux.
  pose proof (shr_fexp_nonneg mx ex lx Hm) as H1.
  destruct (shr_fexp prec emax mx ex lx) as [mrs' e']. cbn [fst] in H1.
  pose proof (round_nearest_even_bounds (shr_m mrs') (loc_of_shr_record mrs'))
    as Hr.
  pose proof (shr_fexp_nonneg
                (round_nearest_even (shr_m mrs') (loc_of_shr_record mrs'))
                e' loc_Exact ltac:(lia)) as H2.
  destruct (shr_fexp prec emax _ e' loc_Exact) as [mrs'' e'']. cbn [fst] in H2.
  destruct (shr_m mrs'') as [| m | m]; try discriminate; try lia.
  destruct (e'' <=? emax - prec)%Z; discriminate.
Qed.

Lemma binary_round_aux_pos (mx ex : Z) (lx : location) :
  0 < mx -> -1074 <= ex -> positiveSF (binary_round_aux prec emax false mx ex lx).
Proof.
  intros Hm He. unfold binary_round_aux.
  destruct (shr_fexp_pos mx ex lx Hm He) as [H1 H1'].
  destruct (shr_fexp prec emax mx ex lx) as [mrs' e']. cbn [fst snd] in H1, H1'.
  pose proof (round_nearest_even_bounds (shr_m mrs') (loc_of_shr_record mrs'))
    as Hr.
  destruct (shr_fexp_pos
              (round_nearest_even (shr_m mrs') (loc_of_shr_record mrs'))
              e' loc_Exact ltac:(lia) H1') as [H2 _].
  destruct (shr_fexp prec emax _ e' loc_Exact) as [mrs'' e'']. cbn [fst] in H2.
  destruct (shr_m mrs'') as [| m | m]; try lia.
  now destruct (e'' <=? emax - prec)%Z.
Qed.

Lemma binary_round_pos (mx : positive) (ex : Z) :
  -1074 <= ex -> positiveSF (binary_round prec emax false mx ex).
Proof.
  intros He. unfold binary_round, shl_align.
  assert (Hf : -1074 <= fexp prec emax (Zpos (digits2_pos mx) + ex)).
  { unfold fexp. rewrite emin_value. lia. }
  destruct (fexp prec emax (Zpos (digits2_pos mx) + ex) - ex);
    apply binary_round_aux_pos; lia.
Qed.

(** The double of a positive integer below [2 ^ 63] is positive. *)
Lemma ofZ_positive (z : Z) :
  0 < z < 2 ^ 63 -> positiveSF (Prim2SF (Double.ofZ z)).
Proof.
  intros Hz. unfold Double.ofZ.
  destruct (Z.ltb_spec z 0) as [Hneg | _]; [lia |].
  rewrite of_uint63_spec, Uint63.of_Z_spec.
  rewrite Z.mod_small by (change Uint63.wB with (2 ^ 63); lia).
  destruct z as [| p |]; try lia.
  cbn [binary_normalize]. apply binary_round_pos. lia.
Qed.

Lemma zero_div_positive (y : float) :
  positiveSF (Prim2SF y) -> (0 / y)%float = 0%float.
Proof.
  intros Hy. apply Prim2SF_inj. rewrite div_spec.
  change (Prim2SF 0) with (S754_zero false).
  destruct (Prim2SF y) as [s | [] | | [] m e]; try contradiction; reflexivity.
Qed.

(** Dividing by a finite number other than zero keeps a number a number. *)
Lemma SFdiv_not_nan (x : spec_float) (sy : bool) (my : positive) (ey : Z) :
  x <> S754_nan -> SF64div x (S754_finite sy my ey) <> S754_nan.
Proof.
  intros Hx. destruct x as [sx | sx | | sx mx ex]; try discriminate;
    [contradiction |].
  unfold SF64div, SFdiv, SFdiv_core_binary.
  set (m' := match _ - _ - _ with Z0 => Zpos mx | Zpos _ => _ | Zneg _ => 0 end).
  assert (Hm' : 0 <= m').
  { subst m'. destruct (_ - _ - _); try lia. apply Z.shiftl_nonneg. lia. }
  clearbody m'.
  destruct (Z.div_eucl m' (Zpos my)) as [q r] eqn:E.
  apply binary_round_aux_not_nan.
  assert (Hq : q = m' / Zpos my) by (unfold Z.div; now rewrite E).
  rewrite Hq. apply Z.div_pos; lia.
Qed.

Lemma div_255_not_nan (x : float) :
  is_nan x = false -> is_nan (x / 255)%float = false.
Proof.
  intros Hx.
  destruct (is_nan (x / 255)%float) eqn:E; [| reflexivity].
  apply is_nan_Prim2SF in E. rewrite div_spec in E.
  exfalso. revert E.
  let v := eval vm_compute in (Prim2SF 255) in change (Prim2SF 255) with v.
  apply SFdiv_not_nan.
  intros H. apply is_nan_Prim2SF in H. congruence.
Qed.

(** ** The order *)

Ltac compare_cases :=
  repeat match goal with
         | H : context [Pos.compare_cont Eq ?x ?y] |- _ =>
             change (Pos.compare_cont Eq x y) with (Pos.compare x y) in H
         | |- context [Pos.compare_cont Eq ?x ?y] =>
             change (Pos.compare_cont Eq x y) with (Pos.compare x y)
         end;
  repeat match goal with
         | H : context [Z.compare ?x ?y] |- _ =>
             destruct (Z.compare_spec x y); cbn [CompOpp] in *;
             try discriminate; try lia
         | H : context [Pos.compare ?x ?y] |- _ =>
             destruct (Pos.compare_spec x y); cbn [CompOpp] in *;
             try discriminate; try lia
         | |- context [Z.compare ?x ?y] =>
             destruct (Z.compare_spec x y); cbn [CompOpp] in *;
             try discriminate; try lia
         | |- context [Pos.compare ?x ?y] =>
             destruct (Pos.compare_spec x y); cbn [CompOpp] in *;
             try discriminate; try lia
         end.

Lemma SFleb_ltb_trans (a b c : spec_float) :
  SFleb a b = true -> SFltb b c = true -> SFleb a c = true.
Proof.
  unfold SFleb, SFltb, SFcompare.
  destruct a as [sa | sa | | sa ma ea], b as [sb | sb | | sb mb eb],
    c as [sc | sc | | sc mc ec];
    try discriminate; try reflexivity;
    repeat match goal with s : bool |- _ => destruct s end;
    try discriminate; try reflexivity;
    intros H1 H2; compare_cases; subst; try reflexivity; try lia.
Qed.

Lemma leb_ltb_trans (a b c : float) :
  (a <=? b)%float = true -> (b <? c)%float = true -> (a <=? c)%float = true.
Proof.
  rewrite !leb_spec, ltb_spec. apply SFleb_ltb_trans.
Qed.

(** ** Sums *)

Lemma SFadd_comm (x y : spec_float) : SF64add x y = SF64add y x.
Proof.
  unfold SF64add, SFadd.
  destruct x as [sx | sx | | sx mx ex], y as [sy | sy | | sy my ey];
    try reflexivity; try (destruct sx, sy; reflexivity).
  cbv zeta. now rewrite (Z.min_comm ex ey), Z.add_comm.
Qed.

(** A sum that starts from zero does not depend on the order of its
    first two terms. *)
Lemma head_swap (x y : float) : (0 + x + y)%float = (0 + y + x)%float.
Proof.
  apply Prim2SF_inj. rewrite !add_spec.
  change (Prim2SF 0) with (S754_zero false).
  destruct (Prim2SF x) as [sx | sx | | sx mx ex],
           (Prim2SF y) as [sy | sy | | sy my ey];
    try reflexivity; try (destruct sx, sy; reflexivity);
    try (destruct sx; reflexivity); try (destruct sy; reflexivity).
  apply SFadd_comm.
Qed.

End Binary64.

(* ================================================================== *)
(** * Bounds of the HSL conversion *)
(* ================================================================== *)

Lemma Qdiv_between (a d lo hi : Q) :
  (0 < d)%Q -> (lo * d <= a)%Q -> (a <= hi * d)%Q -> (lo <= a / d <= hi)%Q.
Proof.
  intros Hd Hlo Hhi. split.
  - now apply Qle_shift_div_l.
  - now apply Qle_shift_div_r.
Qed.

Lemma byteDoubles_In (z : Z) :
  (0 <= z <= 255)%Z -> In (Double.ofZ z) byteDoubles.
Proof.
  intros Hz. unfold byteDoubles. apply in_map, upFrom_In. lia.
Qed.

(** Every conversion of three bytes passes the test: all 16 777 216 of
    them are evaluated. *)
Lemma bytes_checked :
  (let bytes := byteDoubles in
   forallb (fun r => forallb (fun g => forallb (hslChecked r g) bytes) bytes)
           bytes) = true.
Proof. vm_compute. reflexivity. Qed.

Lemma hslChecked_byte (r g b : Z) :
  (0 <= r <= 255)%Z -> (0 <= g <= 255)%Z -> (0 <= b <= 255)%Z ->
  hslChecked (Double.ofZ r) (Double.ofZ g) (Double.ofZ b) = true.
Proof.
  intros Hr Hg Hb.
  pose proof bytes_checked as H. cbv zeta in H.
  rewrite forallb_forall in H.
  specialize (H _ (byteDoubles_In r Hr)).
  rewrite forallb_forall in H.
  specialize (H _ (byteDoubles_In g Hg)).
  rewrite forallb_forall in H.
  exact (H _ (byteDoubles_In b Hb)).
Qed.

(** The conversion of bytes to doubles keeps their order. *)
Lemma ofZ_byte_le (a b : Z) :
  (0 <= a <= 255)%Z -> (0 <= b <= 255)%Z -> (a <= b)%Z ->
  (Double.ofZ a <=? Double.ofZ b)%float = true.
Proof.
  intros Ha Hb Hab.
  assert (Hall : forallb (fun a => forallb (fun b =>
                    if (a <=? b)%Z then (Double.ofZ a <=? Double.ofZ b)%float
                    else true) (upFrom 0 256)) (upFrom 0 256) = true)
    by (vm_compute; reflexivity).
  rewrite forallb_forall in Hall.
  specialize (Hall a ltac:(apply upFrom_In; lia)).
  rewrite forallb_forall in Hall.
  specialize (Hall b ltac:(apply upFrom_In; lia)).
  destruct (Z.leb_spec a b); [exact Hall | lia].
Qed.

Lemma hslChecked_inRange (r g b : float) :
  hslChecked r g b = true -> hslInRange (rgbToHsl r g b).
Proof.
  unfold hslChecked, hslInRange, Double.le, Double.lt.
  destruct (rgbToHsl r g b) as [[h s] l].
  rewrite !andb_true_iff. tauto.
Qed.




(* ================================================================== *)
(** * The classifier *)
(* ================================================================== *)

Lemma levelIndex_lt (a : float) : (levelIndex a < 10)%nat.
Proof.
  unfold levelIndex.
  repeat match goal with
         | |- context [if ?c then _ else _] => destruct c
         end; lia.
Qed.

(** [analyzeSkinTone] always completes normally, with this record. *)
Lemma analyzeSkinTone_Normal (colors : list string) :
  let hsls := colorHSLs colors in
  let type := fst (classifyHue (avgHue hsls)) in
  let level := levelOf (avgLightness hsls) in
  analyzeSkinTone colors
  = Normal {|
      dominantColors := colors;
      skinToneType := type;
      undertone := snd (classifyHue (avgHue hsls));
      skinToneLevel := level;
      outfitPalettes := generateOutfitPalettes type (Level.number level);
      outfitExamples := generateOutfitExamples type (Level.number level);
      recommendations := generateRecommendations type |}.
Proof.
  intros hsls type level. unfold analyzeSkinTone.
  fold hsls.
  rewrite (nth_error_nth' SKIN_TONE_SCALE (Level.mk "" "" 0))
    by apply levelIndex_lt.
  fold (levelOf (avgLightness hsls)). fold level.
  subst type. now destruct (classifyHue (avgHue hsls)).
Qed.

(** C1, as stated, fails: on the empty list [analyzeSkinTone] throws
    nothing and returns a record. *)
Lemma analyzeSkinTone_empty_returns :
  (forall e, analyzeSkinTone [] <> Throw e)
  /\ exists a, analyzeSkinTone [] = Normal a
               /\ dominantColors a = []
               /\ skinToneType a = neutral
               /\ Level.number (skinToneLevel a) = 10%Z.
Proof.
  split.
  - intros e. vm_compute. discriminate.
  - eexists. split; [vm_compute; reflexivity |]. repeat split.
Qed.

(** C1, amended.  [analyzeSkinTone] has no failure mode: it returns a
    record for every list of strings.  On the empty list both averages
    are [0 / 0], that is NaN, and the record is neutral, "Balanced",
    level 10 "Ebony". *)
Theorem analyzeSkinTone_total :
  (forall colors, exists a,
      analyzeSkinTone colors = Normal a /\ dominantColors a = colors)
  /\ avgHue (colorHSLs []) = nan
  /\ avgLightness (colorHSLs []) = nan
  /\ exists a, analyzeSkinTone [] = Normal a
               /\ skinToneType a = neutral
               /\ undertone a = "Balanced"
               /\ skinToneLevel a = ebony.
Proof.
  split; [| split; [| split]].
  - intros colors. eexists. split; [apply analyzeSkinTone_Normal |].
    reflexivity.
  - vm_compute. reflexivity.
  - vm_compute. reflexivity.
  - eexists. split; [apply analyzeSkinTone_Normal |].
    repeat split; vm_compute; reflexivity.
Qed.

(** The entry pushed for a level of 7 or more lies beyond what the final
    [slice] keeps, so both generators return their base lists. *)
Lemma generateOutfitPalettes_base (t : SkinToneType) (level : Z) :
  generateOutfitPalettes t level = basePalettes t.
Proof.
  unfold generateOutfitPalettes.
  destruct t, (level >=? 7)%Z; reflexivity.
Qed.

Lemma generateOutfitExamples_base (t : SkinToneType) (level : Z) :
  generateOutfitExamples t level = baseExamples t.
Proof.
  unfold generateOutfitExamples.
  destruct t, (level >=? 7)%Z; reflexivity.
Qed.

Lemma classifyHue_label (a b : float) :
  fst (classifyHue a) = fst (classifyHue b) ->
  snd (classifyHue a) = snd (classifyHue b).
Proof.
  unfold classifyHue.
  repeat match goal with
         | |- context [if ?c then _ else _] => destruct c
         end; simpl; congruence.
Qed.

(** C2, as stated, fails: for the neutral category nothing is appended,
    and level 7 yields as many palette variants and example phrases as
    level 6. *)
Lemma neutral_outfits_not_extended :
  List.length (generateOutfitPalettes neutral 7)
  <> S (List.length (generateOutfitPalettes neutral 6))
  /\ List.length (generateOutfitExamples neutral 7)
     <> S (List.length (generateOutfitExamples neutral 6)).
Proof. split; vm_compute; discriminate. Qed.

(** C2, amended.  Of two results with the same undertone category, whatever
    their lightness levels, the undertone label and the [recommendations]
    record (clothing, makeup, lipColors, eyeshadow) are the same; and for
    the neutral category, for which the code appends nothing at any
    level, so are [outfitPalettes] and [outfitExamples]. *)
Theorem level_leaves_recommendations (c1 c2 : list string)
    (a1 a2 : SkinToneAnalysis) :
  analyzeSkinTone c1 = Normal a1 ->
  analyzeSkinTone c2 = Normal a2 ->
  skinToneType a1 = skinToneType a2 ->
  undertone a1 = undertone a2
  /\ recommendations a1 = recommendations a2
  /\ (skinToneType a1 = neutral ->
      outfitPalettes a1 = outfitPalettes a2
      /\ outfitExamples a1 = outfitExamples a2).
Proof.
  rewrite !analyzeSkinTone_Normal.
  intros H1 H2. injection H1 as <-. injection H2 as <-.
  cbn [skinToneType undertone recommendations outfitPalettes outfitExamples].
  intros Ht. split; [| split; [| split]].
  - now apply classifyHue_label.
  - now rewrite Ht.
  - now rewrite !generateOutfitPalettes_base, Ht.
  - now rewrite !generateOutfitExamples_base, Ht.
Qed.

Lemma level_leaves_recommendations_witness :
  exists a1 a2,
    analyzeSkinTone ["#c0e0c0"] = Normal a1
    /\ analyzeSkinTone ["#408040"] = Normal a2
    /\ (Level.number (skinToneLevel a1) < 7 <= Level.number (skinToneLevel a2))%Z
    /\ skinToneType a1 = neutral
    /\ undertone a1 = undertone a2
    /\ recommendations a1 = recommendations a2
    /\ outfitPalettes a1 = outfitPalettes a2
    /\ outfitExamples a1 = outfitExamples a2.
Proof.
  destruct (analyzeSkinTone ["#c0e0c0"]) as [a1 |] eqn:E1;
    [| vm_compute in E1; discriminate E1].
  destruct (analyzeSkinTone ["#408040"]) as [a2 |] eqn:E2;
    [| vm_compute in E2; discriminate E2].
  exists a1, a2.
  assert (T1 : skinToneType a1 = neutral)
    by (vm_compute in E1; injection E1 as <-; reflexivity).
  assert (T2 : skinToneType a2 = neutral)
    by (vm_compute in E2; injection E2 as <-; reflexivity).
  destruct (level_leaves_recommendations _ _ a1 a2 E1 E2
              (eq_trans T1 (eq_sym T2))) as (U & R & O).
  destruct (O T1) as [OP OE].
  repeat split; try assumption.
  - vm_compute in E1. injection E1 as <-. reflexivity.
  - vm_compute in E2. injection E2 as <-. discriminate.
Defined.

(** ** The two averages *)

Lemma hue_sum_map (hexes : list string) (a : float) :
  fold_left (fun sum '(h, _, _) => sum + h)%float (colorHSLs hexes) a
  = fold_left PrimFloat.add (map hueOf hexes) a.
Proof.
  revert a. induction hexes as [| hex hexes IH]; intros a; simpl.
  - reflexivity.
  - rewrite <- IH. f_equal. unfold hueOf, hexChannels.
    now destruct (rgbToHsl _ _ _) as [[h s] l].
Qed.

Lemma lightness_sum_map (hexes : list string) (a : float) :
  fold_left (fun sum '(_, _, l) => sum + l)%float (colorHSLs hexes) a
  = fold_left PrimFloat.add (map lightnessOf hexes) a.
Proof.
  revert a. induction hexes as [| hex hexes IH]; intros a; simpl.
  - reflexivity.
  - rewrite <- IH. f_equal. unfold lightnessOf, hexChannels.
    now destruct (rgbToHsl _ _ _) as [[h s] l].
Qed.

Lemma colorHSLs_length (hexes : list string) :
  List.length (colorHSLs hexes) = List.length hexes.
Proof. apply length_map. Qed.

Lemma avgHue_mean (hexes : list string) :
  avgHue (colorHSLs hexes) = arithmeticMean (map hueOf hexes).
Proof.
  unfold avgHue, arithmeticMean.
  now rewrite hue_sum_map, colorHSLs_length, length_map.
Qed.

Lemma avgLightness_mean (hexes : list string) :
  avgLightness (colorHSLs hexes) = arithmeticMean (map lightnessOf hexes).
Proof.
  unfold avgLightness, arithmeticMean.
  now rewrite lightness_sum_map, colorHSLs_length, length_map.
Qed.

(** ** The undertone *)

(** C4.  For a non-empty list the category follows the rule on the
    average hue, which is the double the [reduce] line computes, the
    mean of the hues summed in the order of the list: warm when
    [20 <= avgHue <= 50] (in particular at exactly 20), else cool when
    [avgHue >= 300] or [avgHue <= 20], else neutral. *)
Theorem undertone_rule (colors : list string) :
  colors <> [] ->
  exists a h,
    analyzeSkinTone colors = Normal a
    /\ avgHue (colorHSLs colors) = h
    /\ arithmeticMean (map hueOf colors) = h
    /\ (Double.le 20 h /\ Double.le h 50 ->
        skinToneType a = warm /\ undertone a = "Golden/Yellow")
    /\ (~ (Double.le 20 h /\ Double.le h 50) ->
        Double.le 300 h \/ Double.le h 20 ->
        skinToneType a = cool /\ undertone a = "Pink/Red")
    /\ (~ (Double.le 20 h /\ Double.le h 50) ->
        ~ (Double.le 300 h \/ Double.le h 20) ->
        skinToneType a = neutral /\ undertone a = "Balanced")
    /\ (h = 20%float -> skinToneType a = warm).
Proof.
  intros _.
  eexists. exists (avgHue (colorHSLs colors)).
  split; [apply analyzeSkinTone_Normal |].
  split; [reflexivity |].
  split; [symmetry; apply avgHue_mean |].
  cbn [skinToneType undertone].
  set (h := avgHue (colorHSLs colors)). clearbody h.
  unfold classifyHue, Double.le.
  split; [| split; [| split]].
  - intros [-> ->]. split; reflexivity.
  - intros Hnot Hcool.
    destruct (20 <=? h)%float eqn:E20, (h <=? 50)%float eqn:E50;
      cbn [andb]; try (exfalso; apply Hnot; split; reflexivity);
      destruct Hcool as [H | H]; try rewrite H;
        rewrite ?orb_true_r; cbn [orb]; try (split; reflexivity);
        destruct (300 <=? h)%float; split; reflexivity.
  - intros Hnot Hnot'.
    destruct (20 <=? h)%float eqn:E20, (h <=? 50)%float eqn:E50;
      cbn [andb]; try (exfalso; apply Hnot; split; reflexivity);
      destruct (300 <=? h)%float eqn:E300;
        try (exfalso; apply Hnot'; left; reflexivity);
        destruct (h <=? 20)%float eqn:E20';
        try (exfalso; apply Hnot'; right; reflexivity);
        split; reflexivity.
  - intros ->. reflexivity.
Qed.

Lemma undertone_rule_witness :
  exists a h,
    analyzeSkinTone ["#c89678"; "#d2a082"] = Normal a
    /\ avgHue (colorHSLs ["#c89678"; "#d2a082"]) = h
    /\ (Double.le 20 h /\ Double.le h 50)
    /\ skinToneType a = warm /\ undertone a = "Golden/Yellow".
Proof.
  destruct (undertone_rule ["#c89678"; "#d2a082"])
    as (a & h & Ha & Hh & _ & Hwarm & _); [discriminate |].
  exists a, h.
  assert (Hr : Double.le 20 h /\ Double.le h 50)
    by (rewrite <- Hh; split; vm_compute; reflexivity).
  destruct (Hwarm Hr) as [Ht Hu].
  split; [exact Ha |]. split; [exact Hh |]. split; [exact Hr |].
  split; [exact Ht | exact Hu].
Defined.

(** The rule is about the computed average: the colour ["#965c3f"], whose
    hue is 20 in exact arithmetic, has the computed hue
    19.999999999999996 and is classified cool. *)
Lemma band_edge_is_computed :
  avgHue (colorHSLs ["#965c3f"]) = 0x1.3ffffffffffffp+4%float
  /\ Double.lt (avgHue (colorHSLs ["#965c3f"])) 20
  /\ exists a, analyzeSkinTone ["#965c3f"] = Normal a
               /\ skinToneType a = cool.
Proof.
  split; [vm_compute; reflexivity |].
  split; [vm_compute; reflexivity |].
  eexists. split; [vm_compute; reflexivity | reflexivity].
Qed.

(** ** The level *)

Lemma levelOf_firstMatch (a : float) :
  levelOf a = firstMatch a lightnessTable ebony.
Proof.
  unfold levelOf, levelIndex. cbn [firstMatch lightnessTable].
  repeat match goal with
         | |- context [if ?c then _ else _] => destruct c; [reflexivity |]
         end.
  reflexivity.
Qed.

(** A higher average never selects a later entry of the table. *)
Lemma levelIndex_antitone (a1 a2 : float) :
  Double.lt a2 a1 -> (levelIndex a1 <= levelIndex a2)%nat.
Proof.
  unfold Double.lt. intros H. unfold levelIndex.
  repeat match goal with
         | |- context [(?t <=? a1)%float] =>
             destruct (t <=? a1)%float eqn:?
         end;
    repeat match goal with
           | |- context [(?t <=? a2)%float] =>
               destruct (t <=? a2)%float eqn:?
           end;
    try lia;
    match goal with
    | H2 : (?t <=? a2)%float = true, H1 : (?t <=? a1)%float = false |- _ =>
        rewrite (leb_ltb_trans t a2 a1 H2 H) in H1; discriminate H1
    end.
Qed.

Lemma levelOf_number (a : float) :
  Level.number (levelOf a) = Z.of_nat (S (levelIndex a)).
Proof.
  unfold levelOf, levelIndex.
  repeat match goal with
         | |- context [if ?c then _ else _] => destruct c; [reflexivity |]
         end.
  reflexivity.
Qed.

(** C5.  The level assigned to a non-empty list is the first match of the
    ten-bucket table on the average lightness, the double the [reduce]
    line computes, the mean of the lightness values summed in the order
    of the list; and of two non-empty lists, the one with the higher
    average lightness never gets the higher level number. *)
Theorem lightness_level_table (c1 c2 : list string) :
  c1 <> [] -> c2 <> [] ->
  exists a1 a2,
    analyzeSkinTone c1 = Normal a1
    /\ analyzeSkinTone c2 = Normal a2
    /\ avgLightness (colorHSLs c1) = arithmeticMean (map lightnessOf c1)
    /\ skinToneLevel a1
       = firstMatch (avgLightness (colorHSLs c1)) lightnessTable ebony
    /\ In (skinToneLevel a1) SKIN_TONE_SCALE
    /\ (Double.lt (avgLightness (colorHSLs c2)) (avgLightness (colorHSLs c1)) ->
        (Level.number (skinToneLevel a1) <= Level.number (skinToneLevel a2))%Z).
Proof.
  intros _ _.
  do 2 eexists.
  split; [apply analyzeSkinTone_Normal |].
  split; [apply analyzeSkinTone_Normal |].
  cbn [skinToneLevel].
  split; [apply avgLightness_mean |].
  split; [apply levelOf_firstMatch |].
  split; [apply nth_In, levelIndex_lt |].
  intros H. rewrite !levelOf_number.
  apply levelIndex_antitone in H. lia.
Qed.

Lemma lightness_level_table_witness :
  exists a1 a2,
    analyzeSkinTone ["#f6ede4"; "#eadaba"] = Normal a1
    /\ analyzeSkinTone ["#292421"] = Normal a2
    /\ skinToneLevel a1
       = firstMatch (avgLightness (colorHSLs ["#f6ede4"; "#eadaba"]))
           lightnessTable ebony
    /\ (Level.number (skinToneLevel a1) <= Level.number (skinToneLevel a2))%Z.
Proof.
  destruct (lightness_level_table ["#f6ede4"; "#eadaba"] ["#292421"])
    as (a1 & a2 & H1 & H2 & _ & HT & _ & HM); [discriminate | discriminate |].
  exists a1, a2.
  split; [exact H1 |]. split; [exact H2 |]. split; [exact HT |].
  apply HM. vm_compute. reflexivity.
Defined.

(** The table is read on the computed average: the lightness values of
    [darkColors] have the exact mean 25, their sum in the order of the
    list gives 24.999999999999996, and the level is 10 "Ebony". *)
Lemma threshold_is_computed :
  Double.lt (avgLightness (colorHSLs darkColors)) 25
  /\ exists a, analyzeSkinTone darkColors = Normal a
               /\ skinToneLevel a = ebony.
Proof.
  split; [vm_compute; reflexivity |].
  eexists. split; [vm_compute; reflexivity | reflexivity].
Qed.

(** ** The order of the colours *)

(** C10, as stated, fails: the running sum of doubles depends on the
    order of the list.  Summed in the order of [darkColors] the lightness
    values give the average 24.999999999999996 and level 10, in the order
    of [darkColorsPermuted] they give 25 and level 9. *)
Lemma double_sum_order_changes_level :
  Permutation darkColors darkColorsPermuted
  /\ exists a1 a2,
       analyzeSkinTone darkColors = Normal a1
       /\ analyzeSkinTone darkColorsPermuted = Normal a2
       /\ Level.number (skinToneLevel a1) = 10%Z
       /\ Level.number (skinToneLevel a2) = 9%Z
       /\ skinToneLevel a1 <> skinToneLevel a2.
Proof.
  split.
  - unfold darkColors, darkColorsPermuted.
    apply perm_trans with ["#462424"; "#382d2d"; "#824141"; "#3a3232"]%string.
    + apply perm_skip, perm_swap.
    + apply perm_trans
        with ["#382d2d"; "#462424"; "#824141"; "#3a3232"]%string.
      * apply perm_swap.
      * do 2 apply perm_skip. apply perm_swap.
  - do 2 eexists.
    split; [vm_compute; reflexivity |].
    split; [vm_compute; reflexivity |].
    cbn [skinToneLevel Level.number].
    repeat split. discriminate.
Qed.

Lemma mean_head_swap (x y : float) (rest : list float) :
  arithmeticMean (x :: y :: rest) = arithmeticMean (y :: x :: rest).
Proof.
  unfold arithmeticMean. cbn [fold_left List.length].
  now rewrite head_swap.
Qed.

(** C10, amended.  A permutation of a non-empty colour list has the same
    HSL triples in another order, and each result echoes its own list.
    The category, the undertone and the recommendations depend on the
    list through the average hue only, and the level through the average
    lightness only: whenever the two orders give the same double for an
    average, the fields read from it are the same.  They always do when
    the permutation exchanges the first two colours, since both sums
    start from zero. *)
Theorem analyzeSkinTone_Permutation (c1 c2 : list string) :
  c1 <> [] -> Permutation c1 c2 ->
  exists a1 a2,
    analyzeSkinTone c1 = Normal a1
    /\ analyzeSkinTone c2 = Normal a2
    /\ dominantColors a1 = c1
    /\ dominantColors a2 = c2
    /\ Permutation (colorHSLs c1) (colorHSLs c2)
    /\ (avgHue (colorHSLs c1) = avgHue (colorHSLs c2) ->
        skinToneType a1 = skinToneType a2
        /\ undertone a1 = undertone a2
        /\ recommendations a1 = recommendations a2)
    /\ (avgLightness (colorHSLs c1) = avgLightness (colorHSLs c2) ->
        skinToneLevel a1 = skinToneLevel a2)
    /\ (forall x y rest, c1 = x :: y :: rest -> c2 = y :: x :: rest ->
        skinToneType a1 = skinToneType a2
        /\ undertone a1 = undertone a2
        /\ skinToneLevel a1 = skinToneLevel a2
        /\ recommendations a1 = recommendations a2).
Proof.
  intros _ HP.
  do 2 eexists.
  split; [apply analyzeSkinTone_Normal |].
  split; [apply analyzeSkinTone_Normal |].
  cbn [skinToneType undertone skinToneLevel recommendations dominantColors].
  split; [reflexivity |]. split; [reflexivity |].
  split; [now apply Permutation_map |].
  split; [| split].
  - intros ->. repeat split.
  - intros ->. reflexivity.
  - intros x y rest -> ->.
    rewrite !avgHue_mean, !avgLightness_mean. cbn [map].
    rewrite (mean_head_swap (hueOf x)), (mean_head_swap (lightnessOf x)).
    repeat split.
Qed.

Lemma analyzeSkinTone_Permutation_witness :
  exists a1 a2,
    analyzeSkinTone ["#c89678"; "#645a50"; "#d2a082"] = Normal a1
    /\ analyzeSkinTone ["#d2a082"; "#c89678"; "#645a50"] = Normal a2
    /\ skinToneType a1 = skinToneType a2
    /\ undertone a1 = undertone a2
    /\ recommendations a1 = recommendations a2
    /\ skinToneLevel a1 = skinToneLevel a2.
Proof.
  destruct (analyzeSkinTone_Permutation
              ["#c89678"; "#645a50"; "#d2a082"]
              ["#d2a082"; "#c89678"; "#645a50"])
    as (a1 & a2 & H1 & H2 & _ & _ & _ & Hhue & Hlight & _).
  - discriminate.
  - apply Permutation_sym.
    apply (Permutation_cons_app ["#c89678"; "#645a50"] [] "#d2a082").
    rewrite app_nil_r. apply Permutation_refl.
  - exists a1, a2.
    destruct Hhue as (Ht & Hu & Hr); [vm_compute; reflexivity |].
    split; [exact H1 |]. split; [exact H2 |].
    split; [exact Ht |]. split; [exact Hu |]. split; [exact Hr |].
    apply Hlight. vm_compute. reflexivity.
Defined.

(* ================================================================== *)
(** * The extraction *)
(* ================================================================== *)

Local Close Scope string_scope.

(** ** Sampling *)

Lemma keepPixel_passesFilter (r g b alpha : Z) :
  keepPixel r g b alpha = passesFilter (r, g, b, alpha).
Proof.
  unfold keepPixel, passesFilter.
  rewrite !Z.gtb_ltb.
  destruct (200 <? alpha)%Z, (30 <? r)%Z, (30 <? g)%Z, (30 <? b)%Z,
    (r <? 250)%Z, (g <? 250)%Z, (b <? 250)%Z; reflexivity.
Qed.

Lemma keepPixel_inRange (r g b alpha : Z) :
  keepPixel r g b alpha = true -> pixelInRange (r, g, b).
Proof.
  unfold keepPixel, pixelInRange. rewrite !Z.gtb_ltb.
  rewrite !andb_true_iff, !Z.ltb_lt. lia.
Qed.

(** The body of the loop at offset [16 * j] appends the pixel of index
    [4 * j] when it survives, and nothing otherwise. *)
Lemma samplePixel_survives (data : list Z) (j : nat) (pixels : list pixel) :
  (survivesAt data j = false /\ samplePixel data (16 * j) pixels = pixels)
  \/ (survivesAt data j = true
      /\ exists p, pixelInRange p
                   /\ samplePixel data (16 * j) pixels = pixels ++ [p]).
Proof.
  unfold survivesAt, rgbaAt, samplePixel.
  replace (4 * (4 * j))%nat with (16 * j)%nat by lia.
  destruct (nth_error data (16 * j)) as [r |]; [| now left].
  destruct (nth_error data (16 * j + 1)) as [g |]; [| now left].
  destruct (nth_error data (16 * j + 2)) as [b |]; [| now left].
  destruct (nth_error data (16 * j + 3)) as [alpha |]; [| now left].
  rewrite <- keepPixel_passesFilter.
  destruct (keepPixel r g b alpha) eqn:E; [right | now left].
  split; [reflexivity |]. exists (r, g, b).
  split; [now apply keepPixel_inRange with alpha | reflexivity].
Qed.

(** With enough fuel the loop stops on its own test, and it returns no
    pixel exactly when it started with none and no sampled pixel from
    index [4 * j0] on survives. *)
Lemma sampleLoop_nil (data : list Z) (fuel : nat) :
  forall (j0 : nat) (pixels : list pixel),
    (List.length data <= 16 * j0 + fuel)%nat ->
    sampleLoop fuel data (16 * j0) pixels = []
    <-> pixels = []
        /\ forall j, (j0 <= j)%nat -> (16 * j < List.length data)%nat ->
                     survivesAt data j = false.
Proof.
  induction fuel as [| fuel IH]; intros j0 pixels Hfuel; cbn [sampleLoop].
  - split; [intros -> | tauto].
    split; [reflexivity |]. intros j Hj Hlt. lia.
  - destruct (Nat.ltb_spec (16 * j0) (List.length data)) as [Hlt | Hge].
    + replace (16 * j0 + 16)%nat with (16 * S j0)%nat by lia.
      rewrite IH by lia.
      destruct (samplePixel_survives data j0 pixels)
        as [[Hs ->] | [Hs (p & _ & ->)]].
      * split.
        -- intros [-> Hall]. split; [reflexivity |].
           intros j Hj Hj'.
           destruct (Nat.eq_dec j j0) as [-> | Hne]; [assumption |].
           apply Hall; lia.
        -- intros [-> Hall]. split; [reflexivity |].
           intros j Hj Hj'. apply Hall; lia.
      * split.
        -- intros [Hnil _]. now destruct pixels.
        -- intros [_ Hall]. rewrite Hall in Hs by lia. discriminate.
    + split; [intros -> | tauto].
      split; [reflexivity |]. intros j Hj Hj'. lia.
Qed.

Lemma samplePixels_nil (data : list Z) :
  samplePixels data = []
  <-> forall j, (16 * j < List.length data)%nat -> survivesAt data j = false.
Proof.
  unfold samplePixels.
  rewrite (sampleLoop_nil data (List.length data) 0 []) by lia.
  split.
  - intros [_ H] j Hj. apply H; [lia | assumption].
  - intros H. split; [reflexivity |]. intros j _ Hj. now apply H.
Qed.

Lemma sampleLoop_inRange (data : list Z) (fuel : nat) :
  forall (j0 : nat) (pixels : list pixel),
    Forall pixelInRange pixels ->
    Forall pixelInRange (sampleLoop fuel data (16 * j0) pixels).
Proof.
  induction fuel as [| fuel IH]; intros j0 pixels Hp; cbn [sampleLoop].
  - assumption.
  - destruct (16 * j0 <? List.length data)%nat; [| assumption].
    replace (16 * j0 + 16)%nat with (16 * S j0)%nat by lia.
    apply IH.
    destruct (samplePixel_survives data j0 pixels)
      as [[_ ->] | [_ (p & Hin & ->)]]; [assumption |].
    apply Forall_app. split; [assumption | now constructor].
Qed.

Lemma samplePixels_inRange (data : list Z) :
  Forall pixelInRange (samplePixels data).
Proof.
  apply (sampleLoop_inRange data (List.length data) 0 []). constructor.
Qed.

(** ** Array updates *)

Lemma array_set_length {A : Type} (a : list A) (i : nat) (v : A) :
  List.length (array_set a i v) = List.length a.
Proof.
  revert i. induction a as [| x a IH]; intros [| i]; simpl; auto.
Qed.

Lemma array_set_Forall {A : Type} (P : A -> Prop) (a : list A) (i : nat) (v : A) :
  Forall P a -> P v -> Forall P (array_set a i v).
Proof.
  intros Ha Hv. revert i.
  induction Ha as [| x a Hx Ha IH]; intros [| i]; simpl; auto.
Qed.

(** ** Cluster means *)

Lemma sumBy_bounds {A : Type} (f : A -> Q) (lo hi : Q) (l : list A) :
  Forall (fun p => lo <= f p /\ f p <= hi)%Q l ->
  forall acc : Q,
    (acc + lo * inject_Z (Z.of_nat (List.length l))
     <= fold_left (fun sum p => sum + f p) l acc
     /\ fold_left (fun sum p => sum + f p) l acc
        <= acc + hi * inject_Z (Z.of_nat (List.length l)))%Q.
Proof.
  induction 1 as [| p l [Hlo Hhi] _ IH]; intros acc.
  - cbn [fold_left List.length Z.of_nat].
    change (inject_Z 0) with 0%Q. lra.
  - cbn [fold_left List.length].
    specialize (IH (acc + f p)%Q).
    rewrite Nat2Z.inj_succ. unfold Z.succ. rewrite inject_Z_plus.
    change (inject_Z 1) with 1%Q. lra.
Qed.

Lemma mean_between {A : Type} (f : A -> Q) (lo hi : Q) (l : list A) :
  l <> [] ->
  Forall (fun p => lo <= f p /\ f p <= hi)%Q l ->
  (lo <= sumBy f l / inject_Z (Z.of_nat (List.length l))
   /\ sumBy f l / inject_Z (Z.of_nat (List.length l)) <= hi)%Q.
Proof.
  intros Hne Hl.
  assert (Hn : (0 < inject_Z (Z.of_nat (List.length l)))%Q).
  { change 0%Q with (inject_Z 0). rewrite <- Zlt_Qlt.
    destruct l; [contradiction | simpl; lia]. }
  destruct (sumBy_bounds f lo hi l Hl 0) as [Hlo Hhi].
  unfold sumBy. apply Qdiv_between; [assumption | lra | lra].
Qed.

Lemma byte_bounds_Q (z : Z) :
  (31 <= z <= 249)%Z -> (31 <= inject_Z z /\ inject_Z z <= 249)%Q.
Proof.
  intros [Hlo Hhi]. rewrite Zle_Qle in Hlo, Hhi. split; assumption.
Qed.

Lemma clusterMean_inRange (cluster : list pixel) :
  cluster <> [] -> Forall pixelInRange cluster ->
  centroidInRange (clusterMean cluster).
Proof.
  intros Hne Hc. unfold clusterMean, centroidInRange.
  split; [| split]; apply mean_between; try assumption;
    (eapply Forall_impl; [| exact Hc]);
    intros [[r g] b] (Hr & Hg & Hb); now apply byte_bounds_Q.
Qed.

Lemma updateCentroids_length (clusters : list (list pixel)) :
  forall (index : nat) (centroids : list centroid),
    List.length (updateCentroids clusters index centroids)
    = List.length centroids.
Proof.
  induction clusters as [| cluster clusters IH]; intros index centroids;
    cbn [updateCentroids].
  - reflexivity.
  - rewrite IH. destruct (0 <? List.length cluster)%nat;
      [apply array_set_length | reflexivity].
Qed.

Lemma updateCentroids_inRange (clusters : list (list pixel)) :
  Forall (Forall pixelInRange) clusters ->
  forall (index : nat) (centroids : list centroid),
    Forall centroidInRange centroids ->
    Forall centroidInRange (updateCentroids clusters index centroids).
Proof.
  induction 1 as [| cluster clusters Hc _ IH]; intros index centroids Hcs;
    cbn [updateCentroids].
  - assumption.
  - apply IH.
    destruct (Nat.ltb_spec 0 (List.length cluster)); [| assumption].
    apply array_set_Forall; [assumption |].
    apply clusterMean_inRange; [| assumption].
    now destruct cluster.
Qed.

(** ** Assignment *)

Lemma pushPixel_Normal (clusters : list (list pixel)) (i : nat) (p : pixel) :
  (i < List.length clusters)%nat ->
  Forall (Forall pixelInRange) clusters -> pixelInRange p ->
  exists clusters',
    pushPixel clusters i p = Normal clusters'
    /\ List.length clusters' = List.length clusters
    /\ Forall (Forall pixelInRange) clusters'.
Proof.
  intros Hi Hc Hp. unfold pushPixel.
  destruct (nth_error clusters i) as [cluster |] eqn:E.
  - eexists. split; [reflexivity |].
    split; [apply array_set_length |].
    apply array_set_Forall; [assumption |].
    apply Forall_app. split; [| now constructor].
    rewrite Forall_forall in Hc. apply Hc.
    now apply nth_error_In with i.
  - apply nth_error_None in E. lia.
Qed.

(** A channel of [31, 249] rounds to an integer of that range. *)
Lemma centroid_channel (c : Q) :
  (31 <= c /\ c <= 249)%Q -> roundsToByte c /\ (31 <= roundZ c <= 249)%Z.
Proof.
  intros [Hlo Hhi]. split; [unfold roundsToByte; lra |].
  unfold roundZ. split.
  - change 31%Z with (Qfloor 31). apply Qfloor_resp_le. lra.
  - apply Z.lt_succ_r. rewrite Zlt_Qlt.
    apply Qle_lt_trans with (c + (1 # 2))%Q; [apply Qfloor_le |].
    change (inject_Z (Z.succ 249)) with 250%Q. lra.
Qed.

Section ExtractionFacts.

Variable Math_sqrt : Q -> Q.
Variable Math_random : nat -> Q.

(** [Math.random()] returns a number of [0, 1). *)
Hypothesis random_unit : forall n, (0 <= Math_random n /\ Math_random n < 1)%Q.

Lemma closestLoop_bound (p : pixel) (centroids : list centroid) :
  forall (index : nat) (minDistance : num) (best bound : nat),
    (best < bound)%nat -> (index + List.length centroids <= bound)%nat ->
    (closestLoop Math_sqrt p centroids index minDistance best < bound)%nat.
Proof.
  induction centroids as [| c centroids IH];
    intros index minDistance best bound Hbest Hbound; cbn [closestLoop].
  - assumption.
  - cbn [List.length] in Hbound.
    destruct (_ <? _)%js; apply IH; lia.
Qed.

Lemma closestCluster_bound (p : pixel) (centroids : list centroid) :
  centroids <> [] ->
  (closestCluster Math_sqrt p centroids < List.length centroids)%nat.
Proof.
  intros Hne. unfold closestCluster.
  apply closestLoop_bound; [| lia].
  destruct centroids; [contradiction | simpl; lia].
Qed.

Lemma assignPixels_Normal (centroids : list centroid) (pixels : list pixel) :
  centroids <> [] -> Forall pixelInRange pixels ->
  forall clusters : list (list pixel),
    List.length clusters = List.length centroids ->
    Forall (Forall pixelInRange) clusters ->
    exists clusters',
      assignPixels Math_sqrt pixels centroids clusters = Normal clusters'
      /\ List.length clusters' = List.length centroids
      /\ Forall (Forall pixelInRange) clusters'.
Proof.
  intros Hne. induction 1 as [| p pixels Hp _ IH]; intros clusters Hlen Hc;
    cbn [assignPixels].
  - now exists clusters.
  - destruct (pushPixel_Normal clusters
                (closestCluster Math_sqrt p centroids) p)
      as (clusters' & -> & Hlen' & Hc'); try assumption.
    + rewrite Hlen. now apply closestCluster_bound.
    + cbn [bind]. apply IH; [congruence | assumption].
Qed.

Lemma kmeansRound_Normal (k : nat) (pixels : list pixel)
    (centroids : list centroid) :
  (1 <= k)%nat -> List.length centroids = k ->
  Forall pixelInRange pixels -> Forall centroidInRange centroids ->
  exists centroids',
    kmeansRound Math_sqrt k pixels centroids = Normal centroids'
    /\ List.length centroids' = k
    /\ Forall centroidInRange centroids'.
Proof.
  intros Hk Hlen Hp Hc. unfold kmeansRound.
  destruct (assignPixels_Normal centroids pixels) with (clusters := repeat (@nil pixel) k)
    as (clusters & -> & _ & Hcl); try assumption.
  - destruct centroids; [simpl in Hlen; lia | discriminate].
  - now rewrite repeat_length.
  - apply Forall_forall. intros c Hin. apply repeat_spec in Hin.
    subst c. constructor.
  - cbn [bind]. eexists. split; [reflexivity |].
    split; [now rewrite updateCentroids_length |].
    now apply updateCentroids_inRange.
Qed.

Lemma kmeansLoop_Normal (k : nat) (pixels : list pixel) (rounds : nat) :
  (1 <= k)%nat -> Forall pixelInRange pixels ->
  forall centroids : list centroid,
    List.length centroids = k -> Forall centroidInRange centroids ->
    exists centroids',
      kmeansLoop Math_sqrt rounds k pixels centroids = Normal centroids'
      /\ List.length centroids' = k
      /\ Forall centroidInRange centroids'.
Proof.
  intros Hk Hp.
  induction rounds as [| rounds IH]; intros centroids Hlen Hc;
    cbn [kmeansLoop].
  - now exists centroids.
  - destruct (kmeansRound_Normal k pixels centroids)
      as (centroids' & -> & Hlen' & Hc'); try assumption.
    cbn [bind]. now apply IH.
Qed.


(** ** Initialisation *)

Lemma randomPixel_In (pixels : list pixel) (call : nat) :
  pixels <> [] ->
  exists p, randomPixel Math_random pixels call = Some p /\ In p pixels.
Proof.
  intros Hne. unfold randomPixel.
  set (n := inject_Z (Z.of_nat (List.length pixels))).
  assert (Hn : (0 < n)%Q).
  { unfold n. change 0%Q with (inject_Z 0). rewrite <- Zlt_Qlt.
    destruct pixels; [contradiction | simpl; lia]. }
  destruct (random_unit call) as [Hlo Hhi].
  set (index := Qfloor (Math_random call * n)).
  assert (Hindex : (0 <= index < Z.of_nat (List.length pixels))%Z).
  { unfold index. split.
    - change 0%Z with (Qfloor 0). apply Qfloor_resp_le.
      apply Qmult_le_0_compat; lra.
    - rewrite Zlt_Qlt. fold n.
      apply Qle_lt_trans with (Math_random call * n)%Q;
        [apply Qfloor_le |].
      setoid_replace n with (1 * n)%Q at 2 by ring.
      now apply Qmult_lt_compat_r. }
  destruct (Z.ltb_spec index 0) as [Hneg | _]; [lia |].
  destruct (nth_error pixels (Z.to_nat index)) as [p |] eqn:E.
  - exists p. split; [reflexivity | now apply nth_error_In with (Z.to_nat index)].
  - apply nth_error_None in E. lia.
Qed.

Lemma initCentroids_Normal (pixels : list pixel) (remaining : nat) :
  pixels <> [] -> Forall pixelInRange pixels ->
  forall (i : nat) (centroids : list centroid),
    Forall centroidInRange centroids ->
    exists centroids',
      initCentroids Math_random pixels remaining i centroids
      = Normal centroids'
      /\ List.length centroids' = (List.length centroids + remaining)%nat
      /\ Forall centroidInRange centroids'.
Proof.
  intros Hne Hp.
  induction remaining as [| remaining IH]; intros i centroids Hc;
    cbn [initCentroids].
  - exists centroids. split; [reflexivity |]. split; [lia | assumption].
  - destruct (randomPixel_In pixels i Hne) as ([[r g] b] & -> & Hin).
    rewrite Forall_forall in Hp. specialize (Hp _ Hin).
    destruct Hp as (Hr & Hg & Hb).
    destruct (IH (S i) (centroids ++ [(inject_Z r, inject_Z g, inject_Z b)])%list)
      as (centroids' & -> & Hlen & Hc').
    + apply Forall_app. split; [assumption |].
      constructor; [| constructor].
      unfold centroidInRange. auto using byte_bounds_Q.
    + exists centroids'. split; [reflexivity |]. split; [| assumption].
      rewrite Hlen, length_app. simpl. lia.
Qed.

(** ** The result of the extraction *)

(** With at least one surviving pixel, the extraction completes with
    the rendering of [k] centroids whose channels lie in [31, 249]. *)
Lemma extractDominantColors_centroids (data : list Z) (k : nat) :
  (1 <= k)%nat -> samplePixels data <> [] ->
  exists centroids,
    extractDominantColors Math_sqrt Math_random data k
    = Normal (map (fun '(r, g, b) => rgbToHex (Fin r) (Fin g) (Fin b))
                  centroids)
    /\ List.length centroids = k
    /\ Forall centroidInRange centroids.
Proof.
  intros Hk Hne. unfold extractDominantColors.
  destruct (Nat.eqb_spec (List.length (samplePixels data)) 0) as [E | _].
  { apply length_zero_iff_nil in E. contradiction. }
  pose proof (samplePixels_inRange data) as Hp.
  destruct (initCentroids_Normal (samplePixels data) k Hne Hp 0 [])
    as (cs0 & -> & Hlen0 & Hc0); [constructor |].
  cbn [bind].
  destruct (kmeansLoop_Normal k (samplePixels data) 10 Hk Hp cs0)
    as (cs & -> & Hlen & Hc); try assumption.
  cbn [bind]. now exists cs.
Qed.



(** C9.  Every string of a result is a well-formed colour of seven
    characters, and its channels decode to integers of [31, 249]: the
    final centroids have their channels in that range. *)
Theorem extractDominantColors_wellFormed (data : list Z) (k : nat) :
  (1 <= k)%nat ->
  exists colors,
    extractDominantColors Math_sqrt Math_random data k = Normal colors
    /\ Forall (fun s =>
                 wellFormedHex s = true
                 /\ String.length s = 7%nat
                 /\ exists r g b : Z,
                     hexChannels s = (of_Z r, of_Z g, of_Z b)
                     /\ (31 <= r <= 249 /\ 31 <= g <= 249
                         /\ 31 <= b <= 249)%Z)
              colors.
Proof.
  intros Hk.
  destruct (samplePixels data) as [| p pixels] eqn:E.
  - exists []. split; [| constructor].
    unfold extractDominantColors. now rewrite E.
  - destruct (extractDominantColors_centroids data k Hk)
      as (cs & Hcs & _ & Hrange); [rewrite E; discriminate |].
    eexists. split; [exact Hcs |].
    apply Forall_map.
    eapply Forall_impl; [| exact Hrange].
    intros [[r g] b] (Hr & Hg & Hb).
    apply centroid_channel in Hr, Hg, Hb.
    destruct Hr as [Hr Hr'], Hg as [Hg Hg'], Hb as [Hb Hb'].
    split; [now apply rgbToHex_wellFormed |].
    rewrite rgbToHex_bytes by assumption.
    split; [reflexivity |].
    exists (roundZ r), (roundZ g), (roundZ b).
    split; [apply hexChannels_twoDigits; lia | lia].
Qed.

End ExtractionFacts.

Lemma demo_random_unit (n : nat) : (0 <= demo_random n /\ demo_random n < 1)%Q.
Proof.
  destruct n as [| [| n]]; simpl; split; lra.
Qed.


Lemma extractDominantColors_wellFormed_witness :
  exists colors,
    extractDominantColors sqrt_dyadic demo_random demo_data 3 = Normal colors
    /\ Forall (fun s =>
                 wellFormedHex s = true
                 /\ String.length s = 7%nat
                 /\ exists r g b : Z,
                     hexChannels s = (of_Z r, of_Z g, of_Z b)
                     /\ (31 <= r <= 249 /\ 31 <= g <= 249
                         /\ 31 <= b <= 249)%Z)
              colors.
Proof.
  apply (extractDominantColors_wellFormed sqrt_dyadic demo_random
           demo_random_unit demo_data 3). lia.
Defined.


(* ================================================================== *)
(** * Further facts on the HSL conversion and the classifier *)
(* ================================================================== *)

From Stdlib Require Import ZifyNat.

Local Open Scope string_scope.

(** ** Greys *)

Lemma max2_same (y : float) : is_nan y = false -> Double.max2 y y = y.
Proof.
  intros Hy. unfold Double.max2. rewrite Hy. cbn [orb].
  destruct (y <? y)%float; [reflexivity |].
  now destruct (get_sign y).
Qed.

Lemma min2_same (y : float) : is_nan y = false -> Double.min2 y y = y.
Proof.
  intros Hy. unfold Double.min2. rewrite Hy. cbn [orb].
  destruct (y <? y)%float; [reflexivity |].
  now destruct (get_sign y).
Qed.

Lemma rgbToHsl_grey (x : float) :
  is_nan (x / 255)%float = false ->
  rgbToHsl x x x = (0, 0, (x / 255 + x / 255) / 2 * 100)%float.
Proof.
  intros Hy. unfold rgbToHsl. cbv zeta.
  unfold Double.Math_max, Double.Math_min.
  rewrite !max2_same, !min2_same by assumption.
  rewrite float_eqb_refl by assumption. reflexivity.
Qed.

Lemma byte_lightness_formula :
  Forall (fun x => ((x / 255 + x / 255) / 2 * 100 = x / 255 * 100)%float)
         byteDoubles.
Proof.
  set (l := byteDoubles). vm_compute in l. subst l.
  repeat constructor.
Qed.

(** X1.  A grey, of three equal channels, has hue 0, saturation 0 and the
    lightness [(x / 255 + x / 255) / 2 * 100], whatever the double [x]
    other than NaN; for a byte this is [x / 255 * 100] bit for bit. *)
Theorem rgbToHsl_achromatic (x : float) :
  is_nan x = false ->
  rgbToHsl x x x = (0, 0, (x / 255 + x / 255) / 2 * 100)%float
  /\ (In x byteDoubles -> rgbToHsl x x x = (0, 0, x / 255 * 100)%float).
Proof.
  intros Hx.
  assert (H : rgbToHsl x x x = (0, 0, (x / 255 + x / 255) / 2 * 100)%float)
    by now apply rgbToHsl_grey, div_255_not_nan.
  split; [exact H |].
  intros Hin. rewrite H.
  pose proof byte_lightness_formula as HF.
  rewrite Forall_forall in HF. now rewrite (HF x Hin).
Qed.

Lemma rgbToHsl_achromatic_witness :
  rgbToHsl 128 128 128 = (0, 0, (128 / 255 + 128 / 255) / 2 * 100)%float
  /\ rgbToHsl 128 128 128 = (0, 0, 128 / 255 * 100)%float.
Proof.
  destruct (rgbToHsl_achromatic 128) as [H1 H2]; [reflexivity |].
  split; [exact H1 |]. apply H2. apply (byteDoubles_In 128). lia.
Defined.

(** X2.  For integer channels of [0, 255] in the order [b <= g <= r], the
    order of skin tones, the computed hue lies in [0, 60], between red
    and yellow, and the saturation and the lightness in [0, 100]. *)
Theorem rgbToHsl_skin_order (r g b : Z) :
  (0 <= b)%Z -> (b <= g)%Z -> (g <= r)%Z -> (r <= 255)%Z ->
  exists h s l,
    rgbToHsl (Double.ofZ r) (Double.ofZ g) (Double.ofZ b) = (h, s, l)
    /\ (Double.le 0 h /\ Double.le h 60)
    /\ (Double.le 0 s /\ Double.le s 100)
    /\ (Double.le 0 l /\ Double.le l 100).
Proof.
  intros Hb Hbg Hgr Hr.
  pose proof (hslChecked_byte r g b ltac:(lia) ltac:(lia) ltac:(lia)) as H.
  unfold hslChecked in H.
  rewrite (ofZ_byte_le b g), (ofZ_byte_le g r) in H by lia.
  destruct (rgbToHsl _ _ _) as [[h s] l].
  exists h, s, l. split; [reflexivity |].
  cbn [andb] in H. rewrite !andb_true_iff in H.
  unfold Double.le. tauto.
Qed.

Lemma rgbToHsl_skin_order_witness :
  exists h s l,
    rgbToHsl (Double.ofZ 200) (Double.ofZ 150) (Double.ofZ 120) = (h, s, l)
    /\ (Double.le 0 h /\ Double.le h 60)
    /\ (Double.le 0 s /\ Double.le s 100)
    /\ (Double.le 0 l /\ Double.le l 100).
Proof. apply (rgbToHsl_skin_order 200 150 120); lia. Defined.

(** ** Unreadable colours *)

Lemma max2_nan_l (b : float) : Double.max2 nan b = nan.
Proof. reflexivity. Qed.

Lemma max2_nan_r (a : float) : Double.max2 a nan = nan.
Proof.
  unfold Double.max2. change (is_nan nan) with true.
  now rewrite orb_true_r.
Qed.

Lemma min2_nan_l (b : float) : Double.min2 nan b = nan.
Proof. reflexivity. Qed.

Lemma min2_nan_r (a : float) : Double.min2 a nan = nan.
Proof.
  unfold Double.min2. change (is_nan nan) with true.
  now rewrite orb_true_r.
Qed.

(** With a NaN channel, [max] and [min] are NaN and so is the lightness. *)
Lemma rgbToHsl_nan_lightness (r g b : float) :
  r = nan \/ g = nan \/ b = nan -> snd (rgbToHsl r g b) = nan.
Proof.
  intros H. unfold rgbToHsl. cbv zeta.
  assert (HM : Double.Math_max (r / 255) (g / 255) (b / 255) = nan).
  { unfold Double.Math_max. destruct H as [-> | [-> | ->]];
      rewrite div_nan_l, ?max2_nan_r, ?max2_nan_l; reflexivity. }
  assert (Hm : Double.Math_min (r / 255) (g / 255) (b / 255) = nan).
  { unfold Double.Math_min. destruct H as [-> | [-> | ->]];
      rewrite div_nan_l, ?min2_nan_r, ?min2_nan_l; reflexivity. }
  rewrite HM, Hm. reflexivity.
Qed.

Lemma unreadable_lightness (c : string) : unreadable c -> lightnessOf c = nan.
Proof.
  unfold unreadable, lightnessOf.
  destruct (hexChannels c) as [[r g] b]. intros H.
  assert (H' : Double.ofNum r = nan \/ Double.ofNum g = nan
               \/ Double.ofNum b = nan)
    by (destruct H as [-> | [-> | ->]]; auto).
  pose proof (rgbToHsl_nan_lightness _ _ _ H') as Hl.
  now destruct (rgbToHsl _ _ _) as [[h s] l].
Qed.

Lemma sum_from_nan (xs : list float) : fold_left PrimFloat.add xs nan = nan.
Proof.
  induction xs as [| x xs IH]; [reflexivity |].
  cbn [fold_left]. now rewrite add_nan_l.
Qed.

Lemma sum_with_nan (xs : list float) (a : float) :
  In nan xs -> fold_left PrimFloat.add xs a = nan.
Proof.
  revert a. induction xs as [| x xs IH]; intros a; [intros [] |].
  intros [-> | Hin]; cbn [fold_left].
  - rewrite add_nan_r. apply sum_from_nan.
  - now apply IH.
Qed.

(** X3.  One unreadable colour in the list, whatever the others, makes
    the average lightness NaN and the level 10 "Ebony". *)
Theorem unreadable_colour_gives_ebony (colors : list string) (c : string) :
  In c colors -> unreadable c ->
  exists a,
    analyzeSkinTone colors = Normal a
    /\ avgLightness (colorHSLs colors) = nan
    /\ skinToneLevel a = ebony.
Proof.
  intros Hin Hc.
  assert (HL : avgLightness (colorHSLs colors) = nan).
  { rewrite avgLightness_mean. unfold arithmeticMean.
    rewrite sum_with_nan; [apply div_nan_l |].
    rewrite <- (unreadable_lightness c Hc). now apply in_map. }
  eexists. split; [apply analyzeSkinTone_Normal |].
  split; [exact HL |].
  cbn [skinToneLevel]. now rewrite HL.
Qed.

Lemma unreadable_colour_gives_ebony_witness :
  exists a,
    analyzeSkinTone ["#f6ede4"; "#f6e"] = Normal a
    /\ avgLightness (colorHSLs ["#f6ede4"; "#f6e"]) = nan
    /\ skinToneLevel a = ebony.
Proof.
  apply (unreadable_colour_gives_ebony ["#f6ede4"; "#f6e"] "#f6e").
  - right. left. reflexivity.
  - right. right. reflexivity.
Defined.

(** ** What [parseInt] returns on a channel *)

Lemma allAscii_In (c : ascii) : In c allAscii.
Proof.
  unfold allAscii. rewrite <- (ascii_nat_embedding c).
  apply in_map, in_seq. pose proof (nat_ascii_bounded c). lia.
Qed.

Lemma shortStrings_In (s : string) :
  (String.length s <= 2)%nat -> In s shortStrings.
Proof.
  unfold shortStrings.
  destruct s as [| c [| d [| e s]]]; cbn [String.length]; intros H.
  - now left.
  - right. apply in_or_app. left.
    apply (in_map (fun c => String c EmptyString)), allAscii_In.
  - right. apply in_or_app. right. apply in_flat_map.
    exists c. split; [apply allAscii_In |].
    apply (in_map (fun d => String c (String d EmptyString))), allAscii_In.
  - lia.
Qed.

Lemma substring_length_le (s : string) :
  forall n m, (String.length (substring n m s) <= m)%nat.
Proof.
  induction s as [| c s IH]; intros [| n] [| m]; cbn [substring String.length];
    try lia.
  - specialize (IH 0%nat m). lia.
  - apply IH.
  - apply IH.
Qed.

Lemma parseInt16_short (s : string) :
  (String.length s <= 2)%nat -> smallInt (parseInt16 s) = true.
Proof.
  intros H.
  assert (Hall : forallb (fun s => smallInt (parseInt16 s)) shortStrings = true)
    by (vm_compute; reflexivity).
  rewrite forallb_forall in Hall. now apply Hall, shortStrings_In.
Qed.

Lemma smallInt_Fin (x : Q) :
  smallInt (Fin x) = true -> exists n, (-15 <= n <= 255)%Z /\ Fin x = of_Z n.
Proof.
  destruct x as [n [d | d |]]; cbn [smallInt]; try discriminate.
  intros H. apply andb_true_iff in H as [H1 H2].
  exists n. split; [lia | reflexivity].
Qed.

Lemma small_double_not_nan (n : Z) :
  (-15 <= n <= 255)%Z -> is_nan (Double.ofNum (of_Z n) / 255)%float = false.
Proof.
  intros Hn.
  assert (Hall : forallb (fun n => negb (is_nan (Double.ofNum (of_Z n) / 255)%float))
                   (upFrom (-15) 271) = true)
    by (vm_compute; reflexivity).
  rewrite forallb_forall in Hall.
  apply negb_true_iff, Hall, upFrom_In. lia.
Qed.

Lemma grey_hue (c : string) : grey c -> hueOf c = 0%float.
Proof.
  intros [x Hx]. unfold hueOf.
  assert (Hs : smallInt (Fin x) = true).
  { replace (Fin x) with (fst (fst (hexChannels c))) by now rewrite Hx.
    apply parseInt16_short, substring_length_le. }
  destruct (smallInt_Fin x Hs) as (n & Hn & E).
  rewrite Hx, E.
  now rewrite rgbToHsl_grey by now apply small_double_not_nan.
Qed.

Lemma sum_of_zeros (xs : list float) :
  Forall (fun h => h = 0%float) xs -> fold_left PrimFloat.add xs 0%float = 0%float.
Proof.
  induction 1 as [| x xs -> _ IH]; cbn [fold_left]; [reflexivity |].
  exact IH.
Qed.

(** X4.  A non-empty list of greys, of a length an array can have, has
    the average hue 0 and is classified cool, "Pink/Red": the hue 0 of an
    achromatic colour counts as red. *)
Theorem greys_are_cool (colors : list string) :
  colors <> [] -> arrayLength (List.length colors) -> Forall grey colors ->
  exists a,
    analyzeSkinTone colors = Normal a
    /\ avgHue (colorHSLs colors) = 0%float
    /\ skinToneType a = cool
    /\ undertone a = "Pink/Red".
Proof.
  intros Hne Hlen Hg.
  assert (HH : avgHue (colorHSLs colors) = 0%float).
  { rewrite avgHue_mean. unfold arithmeticMean.
    rewrite sum_of_zeros.
    - apply zero_div_positive, ofZ_positive.
      rewrite length_map. unfold arrayLength in Hlen.
      destruct colors; [contradiction |]. cbn [List.length] in *. lia.
    - apply Forall_map. eapply Forall_impl; [| exact Hg].
      intros c. apply grey_hue. }
  eexists.
  split; [apply analyzeSkinTone_Normal |].
  split; [exact HH |].
  cbn [skinToneType undertone]. rewrite HH. split; reflexivity.
Qed.

Lemma greys_are_cool_witness :
  exists a,
    analyzeSkinTone ["#808080"; "#c0c0c0"] = Normal a
    /\ avgHue (colorHSLs ["#808080"; "#c0c0c0"]) = 0%float
    /\ skinToneType a = cool
    /\ undertone a = "Pink/Red".
Proof.
  apply (greys_are_cool ["#808080"; "#c0c0c0"]).
  - discriminate.
  - unfold arrayLength. cbn [List.length Z.of_nat]. lia.
  - constructor; [exists 128%Q; reflexivity |].
    constructor; [exists 192%Q; reflexivity | constructor].
Defined.

(** X5.  Whatever the colours, and so whatever the category and the
    level, the result carries the four base palettes of its category, each
    of five colours, and its two base example phrases: an entry pushed
    for a level of 7 or more never reaches the result. *)
Theorem outfit_lists_are_the_base_lists (colors : list string) :
  exists a,
    analyzeSkinTone colors = Normal a
    /\ outfitPalettes a = basePalettes (skinToneType a)
    /\ outfitExamples a = baseExamples (skinToneType a)
    /\ List.length (outfitPalettes a) = 4%nat
    /\ Forall (fun p => List.length (Palette.colors p) = 5%nat)
              (outfitPalettes a)
    /\ List.length (outfitExamples a) = 2%nat.
Proof.
  eexists. split; [apply analyzeSkinTone_Normal |].
  cbn [outfitPalettes outfitExamples skinToneType].
  rewrite generateOutfitPalettes_base, generateOutfitExamples_base.
  split; [reflexivity |]. split; [reflexivity |].
  destruct (fst (classifyHue (avgHue (colorHSLs colors))));
    repeat split; repeat constructor.
Qed.

(* ================================================================== *)
(** * Further facts on the sampling and the clustering *)
(* ================================================================== *)

Local Close Scope string_scope.

Lemma samplePixel_survivorAt (data : list Z) (j : nat) (pixels : list pixel) :
  samplePixel data (16 * j) pixels = pixels ++ survivorAt data j.
Proof.
  unfold survivorAt, rgbaAt, samplePixel.
  replace (4 * (4 * j))%nat with (16 * j)%nat by lia.
  destruct (nth_error data (16 * j)) as [r |]; [| now rewrite app_nil_r].
  destruct (nth_error data (16 * j + 1)) as [g |]; [| now rewrite app_nil_r].
  destruct (nth_error data (16 * j + 2)) as [b |]; [| now rewrite app_nil_r].
  destruct (nth_error data (16 * j + 3)) as [alpha |];
    [| now rewrite app_nil_r].
  rewrite <- keepPixel_passesFilter.
  destruct (keepPixel r g b alpha); [reflexivity | now rewrite app_nil_r].
Qed.

Ltac lia_div := zify; Z.to_euclidean_division_equations; lia.

Lemma sampleLoop_flat_map (data : list Z) (fuel : nat) :
  forall (j0 : nat) (pixels : list pixel),
    (List.length data <= 16 * j0 + fuel)%nat ->
    sampleLoop fuel data (16 * j0) pixels
    = pixels ++ flat_map (survivorAt data)
                         (seq j0 (sampleCount data - j0)).
Proof.
  unfold sampleCount.
  induction fuel as [| fuel IH]; intros j0 pixels Hfuel; cbn [sampleLoop].
  - replace ((List.length data + 15) / 16 - j0)%nat with 0%nat by lia_div.
    cbn. now rewrite app_nil_r.
  - destruct (Nat.ltb_spec (16 * j0) (List.length data)) as [Hlt | Hge].
    + replace (16 * j0 + 16)%nat with (16 * S j0)%nat by lia.
      rewrite IH by lia. rewrite samplePixel_survivorAt.
      replace ((List.length data + 15) / 16 - j0)%nat
        with (S ((List.length data + 15) / 16 - S j0)) by lia_div.
      cbn [seq flat_map]. now rewrite app_assoc.
    + replace ((List.length data + 15) / 16 - j0)%nat with 0%nat by lia_div.
      cbn. now rewrite app_nil_r.
Qed.

Lemma survivorAt_length (data : list Z) (j : nat) :
  (List.length (survivorAt data j) <= 1)%nat.
Proof.
  unfold survivorAt.
  destruct (rgbaAt data (4 * j)) as [[[[r g] b] alpha] |]; [| simpl; lia].
  destruct (passesFilter (r, g, b, alpha)); simpl; lia.
Qed.

Lemma flat_map_survivors_length (data : list Z) (js : list nat) :
  (List.length (flat_map (survivorAt data) js) <= List.length js)%nat.
Proof.
  induction js as [| j js IH]; cbn [flat_map List.length]; [lia |].
  rewrite length_app. pose proof (survivorAt_length data j). lia.
Qed.

(** X6.  The samples are the pixels of index 0, 4, 8, ... that pass the
    filter, in the order of the buffer; there is at most one per 16 bytes
    of the buffer, rounded up. *)
Theorem samplePixels_are_the_survivors (data : list Z) :
  samplePixels data
  = flat_map (survivorAt data) (seq 0 (sampleCount data))
  /\ (List.length (samplePixels data) <= sampleCount data)%nat.
Proof.
  assert (H : samplePixels data
              = flat_map (survivorAt data) (seq 0 (sampleCount data))).
  { pose proof (sampleLoop_flat_map data (List.length data) 0 []) as H0.
    rewrite Nat.mul_0_r, Nat.sub_0_r in H0. apply H0. lia. }
  split; [exact H |].
  rewrite H.
  etransitivity; [apply flat_map_survivors_length |].
  now rewrite length_seq.
Qed.

(** ** A generic invariant of the k-means loop *)

Section Invariant.

Variable P : pixel -> Prop.
Variable C : centroid -> Prop.

(** A pixel taken as a centroid, and the mean of a non-empty cluster,
    satisfy the centroid property. *)
Hypothesis seed_C :
  forall r g b, P (r, g, b) -> C (inject_Z r, inject_Z g, inject_Z b).
Hypothesis mean_C :
  forall cluster, cluster <> [] -> Forall P cluster -> C (clusterMean cluster).

Variable Math_sqrt : Q -> Q.
Variable Math_random : nat -> Q.
Hypothesis random_unit : forall n, (0 <= Math_random n /\ Math_random n < 1)%Q.

Lemma updateCentroids_keeps (clusters : list (list pixel)) :
  Forall (Forall P) clusters ->
  forall (index : nat) (centroids : list centroid),
    Forall C centroids ->
    Forall C (updateCentroids clusters index centroids).
Proof.
  induction 1 as [| cluster clusters Hc _ IH]; intros index centroids Hcs;
    cbn [updateCentroids].
  - assumption.
  - apply IH.
    destruct (Nat.ltb_spec 0 (List.length cluster)); [| assumption].
    apply array_set_Forall; [assumption |].
    apply mean_C; [| assumption].
    now destruct cluster.
Qed.

Lemma pushPixel_keeps (clusters : list (list pixel)) (i : nat) (p : pixel) :
  (i < List.length clusters)%nat ->
  Forall (Forall P) clusters -> P p ->
  exists clusters',
    pushPixel clusters i p = Normal clusters'
    /\ List.length clusters' = List.length clusters
    /\ Forall (Forall P) clusters'.
Proof.
  intros Hi Hc Hp. unfold pushPixel.
  destruct (nth_error clusters i) as [cluster |] eqn:E.
  - eexists. split; [reflexivity |].
    split; [apply array_set_length |].
    apply array_set_Forall; [assumption |].
    apply Forall_app. split; [| now constructor].
    rewrite Forall_forall in Hc. apply Hc.
    now apply nth_error_In with i.
  - apply nth_error_None in E. lia.
Qed.

Lemma assignPixels_keeps (centroids : list centroid) (pixels : list pixel) :
  centroids <> [] -> Forall P pixels ->
  forall clusters : list (list pixel),
    List.length clusters = List.length centroids ->
    Forall (Forall P) clusters ->
    exists clusters',
      assignPixels Math_sqrt pixels centroids clusters = Normal clusters'
      /\ List.length clusters' = List.length centroids
      /\ Forall (Forall P) clusters'.
Proof.
  intros Hne. induction 1 as [| p pixels Hp _ IH]; intros clusters Hlen Hc;
    cbn [assignPixels].
  - now exists clusters.
  - destruct (pushPixel_keeps clusters
                (closestCluster Math_sqrt p centroids) p)
      as (clusters' & -> & Hlen' & Hc'); try assumption.
    + rewrite Hlen. now apply closestCluster_bound.
    + cbn [bind]. apply IH; [congruence | assumption].
Qed.

Lemma kmeansLoop_keeps (k : nat) (pixels : list pixel) (rounds : nat) :
  (1 <= k)%nat -> Forall P pixels ->
  forall centroids : list centroid,
    List.length centroids = k -> Forall C centroids ->
    exists centroids',
      kmeansLoop Math_sqrt rounds k pixels centroids = Normal centroids'
      /\ List.length centroids' = k
      /\ Forall C centroids'.
Proof.
  intros Hk Hp.
  induction rounds as [| rounds IH]; intros centroids Hlen Hc;
    cbn [kmeansLoop].
  - now exists centroids.
  - unfold kmeansRound.
    destruct (assignPixels_keeps centroids pixels)
      with (clusters := repeat (@nil pixel) k)
      as (clusters & -> & _ & Hcl); try assumption.
    + destruct centroids; [simpl in Hlen; lia | discriminate].
    + now rewrite repeat_length.
    + apply Forall_forall. intros c Hin. apply repeat_spec in Hin.
      subst c. constructor.
    + cbn [bind]. apply IH.
      * now rewrite updateCentroids_length.
      * now apply updateCentroids_keeps.
Qed.

Lemma initCentroids_keeps (pixels : list pixel) (remaining : nat) :
  pixels <> [] -> Forall P pixels ->
  forall (i : nat) (centroids : list centroid),
    Forall C centroids ->
    exists centroids',
      initCentroids Math_random pixels remaining i centroids
      = Normal centroids'
      /\ List.length centroids' = (List.length centroids + remaining)%nat
      /\ Forall C centroids'.
Proof.
  intros Hne Hp.
  induction remaining as [| remaining IH]; intros i centroids Hc;
    cbn [initCentroids].
  - exists centroids. split; [reflexivity |]. split; [lia | assumption].
  - destruct (randomPixel_In Math_random random_unit pixels i Hne)
      as ([[r g] b] & -> & Hin).
    rewrite Forall_forall in Hp. specialize (Hp _ Hin).
    destruct (IH (S i) (centroids ++ [(inject_Z r, inject_Z g, inject_Z b)]))
      as (centroids' & -> & Hlen & Hc').
    + apply Forall_app. split; [assumption |].
      constructor; [now apply seed_C | constructor].
    + exists centroids'. split; [reflexivity |]. split; [| assumption].
      rewrite Hlen, length_app. simpl. lia.
Qed.

Lemma extractDominantColors_keeps (data : list Z) (k : nat) :
  (1 <= k)%nat -> samplePixels data <> [] ->
  Forall P (samplePixels data) ->
  exists centroids,
    extractDominantColors Math_sqrt Math_random data k
    = Normal (map renderCentroid centroids)
    /\ List.length centroids = k
    /\ Forall C centroids.
Proof.
  intros Hk Hne Hp. unfold extractDominantColors.
  destruct (Nat.eqb_spec (List.length (samplePixels data)) 0) as [E | _].
  { apply length_zero_iff_nil in E. contradiction. }
  destruct (initCentroids_keeps (samplePixels data) k Hne Hp 0 [])
    as (cs0 & -> & Hlen0 & Hc0); [constructor |].
  cbn [bind].
  destruct (kmeansLoop_keeps k (samplePixels data) 10 Hk Hp cs0)
    as (cs & -> & Hlen & Hc); try assumption.
  cbn [bind]. exists cs. split; [reflexivity | split; assumption].
Qed.

End Invariant.

(** ** Further facts on the extraction *)

Lemma round_within (lo hi : Z) (c : Q) :
  (inject_Z lo <= c /\ c <= inject_Z hi)%Q -> (lo <= roundZ c <= hi)%Z.
Proof.
  intros [Hlo Hhi]. split.
  - rewrite <- (roundZ_inject lo). unfold roundZ.
    apply Qfloor_resp_le. lra.
  - rewrite <- (roundZ_inject hi). unfold roundZ.
    apply Qfloor_resp_le. lra.
Qed.

Lemma clusterMean_inBox (lo hi : pixel) (cluster : list pixel) :
  cluster <> [] -> Forall (pixelInBox lo hi) cluster ->
  centroidInBox lo hi (clusterMean cluster).
Proof.
  destruct lo as [[loR loG] loB], hi as [[hiR hiG] hiB].
  intros Hne Hc. unfold clusterMean, centroidInBox.
  split; [| split]; apply mean_between; try assumption;
    (eapply Forall_impl; [| exact Hc]);
    intros [[r g] b] (Hr & Hg & Hb); unfold pixelInBox in *;
    rewrite <- !Zle_Qle; lia.
Qed.

Lemma seed_inBox (lo hi : pixel) (r g b : Z) :
  pixelInBox lo hi (r, g, b) ->
  centroidInBox lo hi (inject_Z r, inject_Z g, inject_Z b).
Proof.
  destruct lo as [[loR loG] loB], hi as [[hiR hiG] hiB].
  unfold pixelInBox, centroidInBox. rewrite <- !Zle_Qle. lia.
Qed.

Lemma survivors_exist (data : list Z) :
  (exists j, (16 * j < List.length data)%nat /\ survivesAt data j = true) ->
  samplePixels data <> [].
Proof.
  intros (j & Hj & Hs) E.
  rewrite samplePixels_nil in E. rewrite E in Hs by assumption.
  discriminate.
Qed.

Lemma pinned_roundsToByte (z : Z) (c : Q) :
  (31 <= z <= 249)%Z -> (inject_Z z <= c /\ c <= inject_Z z)%Q ->
  roundsToByte c.
Proof.
  intros Hz [Hlo Hhi]. apply byte_bounds_Q in Hz.
  apply centroid_channel. lra.
Qed.

Section ExtractionExtras.

Variable Math_sqrt : Q -> Q.
Variable Math_random : nat -> Q.
Hypothesis random_unit : forall n, (0 <= Math_random n /\ Math_random n < 1)%Q.

(** X7.  With [k = 0] and a surviving pixel the extraction throws a
    TypeError: the first sample is pushed to a cluster that does not
    exist. *)
Theorem extractDominantColors_zero_clusters (data : list Z) :
  (exists j, (16 * j < List.length data)%nat /\ survivesAt data j = true) ->
  extractDominantColors Math_sqrt Math_random data 0 = Throw TypeError.
Proof.
  intros Hs. apply survivors_exist in Hs.
  unfold extractDominantColors.
  destruct (samplePixels data) as [| p pixels]; [contradiction |].
  reflexivity.
Qed.

(** X8.  When every sample lies in a box of channel values, so does every
    returned colour: its three channels decode to integers between the
    corners of the box. *)
Theorem extractDominantColors_within_box
    (data : list Z) (k : nat) (lo hi : pixel) :
  (1 <= k)%nat ->
  Forall (pixelInBox lo hi) (samplePixels data) ->
  exists colors,
    extractDominantColors Math_sqrt Math_random data k = Normal colors
    /\ Forall (fun s => exists p : pixel,
                   hexChannels s
                   = (let '(r, g, b) := p in (of_Z r, of_Z g, of_Z b))
                   /\ pixelInBox lo hi p)
              colors.
Proof.
  intros Hk Hbox.
  destruct (samplePixels data) as [| p0 pixels] eqn:E.
  { exists []. split; [| constructor].
    unfold extractDominantColors. now rewrite E. }
  destruct (extractDominantColors_keeps
              (fun p => pixelInBox lo hi p /\ pixelInRange p)
              (fun c => centroidInBox lo hi c /\ centroidInRange c))
    with (Math_sqrt := Math_sqrt) (Math_random := Math_random)
         (data := data) (k := k)
    as (cs & Hcs & _ & Hc); try assumption.
  - intros r g b [Hb Hr]. split; [now apply seed_inBox |].
    destruct Hr as (Hr & Hg & Hb').
    unfold centroidInRange. auto using byte_bounds_Q.
  - intros cluster Hne Hcl. split.
    + apply clusterMean_inBox; [assumption |].
      eapply Forall_impl; [| exact Hcl]. now intros q [Hq _].
    + apply clusterMean_inRange; [assumption |].
      eapply Forall_impl; [| exact Hcl]. now intros q [_ Hq].
  - rewrite E. discriminate.
  - rewrite E. apply Forall_forall. intros q Hq. split.
    + rewrite Forall_forall in Hbox. now apply Hbox.
    + pose proof (samplePixels_inRange data) as Hr.
      rewrite E, Forall_forall in Hr. now apply Hr.
  - eexists. split; [exact Hcs |].
    apply Forall_map. eapply Forall_impl; [| exact Hc].
    intros [[r g] b] [Hb (Hr & Hg & Hb')].
    exists (roundZ r, roundZ g, roundZ b).
    apply centroid_channel in Hr, Hg, Hb'.
    destruct Hr as [Hr Hr'], Hg as [Hg Hg'], Hb' as [Hb' Hb''].
    split.
    + unfold renderCentroid. rewrite rgbToHex_bytes by assumption.
      apply hexChannels_twoDigits; lia.
    + destruct lo as [[loR loG] loB], hi as [[hiR hiG] hiB].
      destruct Hb as (H1 & H2 & H3).
      unfold pixelInBox. auto using round_within.
Qed.

Lemma map_constant {A B : Type} (f : A -> B) (v : B) (l : list A) :
  Forall (fun x => f x = v) l -> map f l = repeat v (List.length l).
Proof.
  induction 1 as [| x l Hx _ IH]; cbn [map List.length repeat].
  - reflexivity.
  - now rewrite Hx, IH.
Qed.

(** X9.  When all samples are one and the same pixel, as for a region of
    uniform colour, the result is [k] copies of the colour of that
    pixel. *)
Theorem extractDominantColors_uniform (data : list Z) (k : nat) (r g b : Z) :
  (1 <= k)%nat ->
  samplePixels data <> [] ->
  Forall (fun p => p = (r, g, b)) (samplePixels data) ->
  extractDominantColors Math_sqrt Math_random data k
  = Normal (repeat (rgbToHex (of_Z r) (of_Z g) (of_Z b)) k).
Proof.
  intros Hk Hne Hall.
  assert (Hrange : pixelInRange (r, g, b)).
  { pose proof (samplePixels_inRange data) as Hr.
    destruct (samplePixels data) as [| p pixels]; [contradiction |].
    inversion Hall as [| ? ? Hp _]; subst.
    now inversion Hr. }
  destruct (extractDominantColors_keeps
              (fun p => p = (r, g, b))
              (fun c => centroidInBox (r, g, b) (r, g, b) c))
    with (Math_sqrt := Math_sqrt) (Math_random := Math_random)
         (data := data) (k := k)
    as (cs & -> & Hlen & Hc); try assumption.
  - intros r' g' b' E. injection E as -> -> ->.
    apply seed_inBox. unfold pixelInBox. lia.
  - intros cluster Hcne Hcl. apply clusterMean_inBox; [assumption |].
    eapply Forall_impl; [| exact Hcl].
    intros p ->. unfold pixelInBox. lia.
  - f_equal. rewrite <- Hlen. apply map_constant.
    eapply Forall_impl; [| exact Hc].
    intros [[cr cg] cb] (Hr & Hg & Hb).
    destruct Hrange as (Rr & Rg & Rb).
    pose proof (pinned_roundsToByte r cr Rr Hr) as Br.
    pose proof (pinned_roundsToByte g cg Rg Hg) as Bg.
    pose proof (pinned_roundsToByte b cb Rb Hb) as Bb.
    apply round_within in Hr, Hg, Hb.
    unfold renderCentroid, of_Z.
    rewrite !rgbToHex_bytes;
      try assumption; try (apply byte_roundsToByte; lia).
    rewrite !roundZ_inject.
    replace (roundZ cr) with r by lia.
    replace (roundZ cg) with g by lia.
    replace (roundZ cb) with b by lia.
    reflexivity.
Qed.

End ExtractionExtras.

Lemma extractDominantColors_zero_clusters_witness :
  extractDominantColors sqrt_dyadic demo_random demo_data 0 = Throw TypeError.
Proof.
  apply (extractDominantColors_zero_clusters sqrt_dyadic demo_random demo_data).
  exists 0%nat. split; [vm_compute; lia | reflexivity].
Defined.

Lemma extractDominantColors_within_box_witness :
  exists colors,
    extractDominantColors sqrt_dyadic demo_random demo_data 3 = Normal colors
    /\ Forall (fun s => exists p : pixel,
                   hexChannels s
                   = (let '(r, g, b) := p in (of_Z r, of_Z g, of_Z b))
                   /\ pixelInBox (100, 90, 80)%Z (210, 160, 130)%Z p)
              colors.
Proof.
  apply (extractDominantColors_within_box sqrt_dyadic demo_random
           demo_random_unit demo_data 3 (100, 90, 80)%Z (210, 160, 130)%Z).
  - lia.
  - vm_compute. repeat constructor; discriminate.
Defined.

Lemma extractDominantColors_uniform_witness :
  extractDominantColors sqrt_dyadic demo_random uniform_data 3
  = Normal (repeat (rgbToHex (of_Z 200) (of_Z 150) (of_Z 120)) 3).
Proof.
  apply (extractDominantColors_uniform sqrt_dyadic demo_random
           demo_random_unit uniform_data 3 200 150 120).
  - lia.
  - vm_compute. discriminate.
  - vm_compute. repeat constructor.
Defined.

(* ================================================================== *)
(** * The face region: facts *)
(* ================================================================== *)

Local Open Scope string_scope.

Lemma Qfloor_tenths (z n : Z) :
  Qfloor (inject_Z z * (n # 10)) = (z * n / 10)%Z.
Proof.
  unfold Qfloor, Qmult, inject_Z. cbn [Qnum Qden]. reflexivity.
Qed.

(** X10.  The rectangle [detectFaceRegion] asks for lies inside the
    canvas, starts at three tenths of the width and two tenths of the
    height, spans four tenths of the width and six tenths of the height,
    all rounded down, and has no width below 3 pixels of canvas width and
    no height below 2 pixels of canvas height. *)
Theorem faceRect_inside (canvasWidth canvasHeight : Z) :
  (0 <= canvasWidth)%Z -> (0 <= canvasHeight)%Z ->
  let '(centerX, centerY, width, height) := faceRect canvasWidth canvasHeight in
  (0 <= centerX /\ 0 <= width /\ centerX + width <= canvasWidth
   /\ 0 <= centerY /\ 0 <= height /\ centerY + height <= canvasHeight
   /\ 10 * centerX <= 3 * canvasWidth < 10 * centerX + 10
   /\ 10 * width <= 4 * canvasWidth < 10 * width + 10
   /\ 10 * centerY <= 2 * canvasHeight < 10 * centerY + 10
   /\ 10 * height <= 6 * canvasHeight < 10 * height + 10
   /\ (1 <= width <-> 3 <= canvasWidth)
   /\ (1 <= height <-> 2 <= canvasHeight))%Z.
Proof.
  intros HW HH. unfold faceRect. rewrite !Qfloor_tenths.
  repeat split; lia_div.
Qed.

Lemma faceRect_inside_witness :
  let '(centerX, centerY, width, height) := faceRect 640 480 in
  (0 <= centerX /\ 0 <= width /\ centerX + width <= 640
   /\ 0 <= centerY /\ 0 <= height /\ centerY + height <= 480
   /\ 10 * centerX <= 3 * 640 < 10 * centerX + 10
   /\ 10 * width <= 4 * 640 < 10 * width + 10
   /\ 10 * centerY <= 2 * 480 < 10 * centerY + 10
   /\ 10 * height <= 6 * 480 < 10 * height + 10
   /\ (1 <= width <-> 3 <= 640)
   /\ (1 <= height <-> 2 <= 480))%Z.
Proof. apply (faceRect_inside 640 480); lia. Defined.

(** X11.  On a canvas whose context follows the standard,
    [detectFaceRegion] returns a region of [floor (0.4 W)] by
    [floor (0.6 H)] pixels, four bytes each, when the canvas is at least 3
    pixels wide and 2 pixels high, and otherwise the call throws: the
    rectangle it asks for has no width or no height. *)
Theorem detectFaceRegion_conforming (canvas : Canvas.t) (ctx : Context2D) :
  Canvas.getContext canvas = Some ctx -> conforming ctx ->
  (0 <= Canvas.width canvas)%Z -> (0 <= Canvas.height canvas)%Z ->
  ((3 <= Canvas.width canvas /\ 2 <= Canvas.height canvas)%Z ->
   exists region,
     detectFaceRegion canvas = Region region
     /\ ImageData.width region = (4 * Canvas.width canvas / 10)%Z
     /\ ImageData.height region = (6 * Canvas.height canvas / 10)%Z
     /\ Z.of_nat (List.length (ImageData.data region))
        = (4 * ImageData.width region * ImageData.height region)%Z)
  /\ ((Canvas.width canvas < 3 \/ Canvas.height canvas < 2)%Z ->
      detectFaceRegion canvas = RegionThrows).
Proof.
  intros Hctx Hconf HW HH. unfold detectFaceRegion. rewrite Hctx.
  unfold faceRect. rewrite !Qfloor_tenths.
  set (W := Canvas.width canvas) in *. set (H := Canvas.height canvas) in *.
  split.
  - intros [HW3 HH2].
    destruct (Hconf 0 0 W H)%Z as [_ Hfull].
    destruct Hfull as (full & -> & _); [lia | lia |].
    destruct (Hconf (W * 3 / 10) (H * 2 / 10) (W * 4 / 10) (H * 6 / 10))%Z
      as [_ Hcrop].
    destruct Hcrop as (region & -> & Hw & Hh & Hlen); [lia_div | lia_div |].
    exists region. split; [reflexivity |].
    rewrite Hlen, Hw, Hh.
    replace (4 * W)%Z with (W * 4)%Z by lia.
    replace (6 * H)%Z with (H * 6)%Z by lia.
    repeat split.
  - intros Hsmall.
    destruct (Z.eq_dec W 0) as [HW0 | HW0]; [| destruct (Z.eq_dec H 0) as [HH0 | HH0]].
    + destruct (Hconf 0 0 W H)%Z as [Hzero _]. now rewrite Hzero by auto.
    + destruct (Hconf 0 0 W H)%Z as [Hzero _]. now rewrite Hzero by auto.
    + destruct (Hconf 0 0 W H)%Z as [_ Hfull].
      destruct Hfull as (full & -> & _); [lia | lia |].
      destruct (Hconf (W * 3 / 10) (H * 2 / 10) (W * 4 / 10) (H * 6 / 10))%Z
        as [Hzero _].
      rewrite Hzero; [reflexivity |]. lia_div.
Qed.

Lemma blank_context_conforming : conforming blank_context.
Proof.
  intros sx sy sw sh. unfold blank_context. cbn [getImageData]. split.
  - intros [-> | ->].
    + reflexivity.
    + now rewrite orb_true_r.
  - intros Hw Hh.
    destruct (Z.leb_spec sw 0); [lia |].
    destruct (Z.leb_spec sh 0); [lia |].
    cbn [orb]. eexists. split; [reflexivity |].
    cbn [ImageData.width ImageData.height ImageData.data].
    rewrite repeat_length. repeat split. apply Z2Nat.id.
    apply Z.mul_nonneg_nonneg; lia.
Qed.

Lemma detectFaceRegion_conforming_witness :
  exists region,
    detectFaceRegion (Canvas.mk 640 480 (Some blank_context)) = Region region
    /\ ImageData.width region = 256%Z
    /\ ImageData.height region = 288%Z.
Proof.
  destruct (detectFaceRegion_conforming
              (Canvas.mk 640 480 (Some blank_context)) blank_context)
    as [Hbig _]; [reflexivity | apply blank_context_conforming
                 | cbn; lia | cbn; lia |].
  destruct Hbig as (region & H & Hw & Hh & _); [cbn; lia |].
  exists region. split; [exact H |]. split; [exact Hw | exact Hh].
Defined.

Lemma sameRect_eq (a b : Z * Z * Z * Z) : sameRect a b = true -> a = b.
Proof.
  destruct a as [[[x y] w] h], b as [[[x' y'] w'] h']. cbn.
  rewrite !andb_true_iff, !Z.eqb_eq. intros [[[-> ->] ->] ->]. reflexivity.
Qed.

Lemma tenths_agree (z : Z) :
  (0 <= z < 32768)%Z -> DoubleRect.faceRect z z = faceRect z z.
Proof.
  intros Hz. apply sameRect_eq.
  assert (Hall : forallb (fun z => sameRect (DoubleRect.faceRect z z) (faceRect z z))
                   (upFrom 0 (Pos.to_nat 32768)) = true)
    by (vm_compute; reflexivity).
  rewrite forallb_forall in Hall. apply Hall.
  apply upFrom_In. lia.
Qed.

(** X12.  For canvases of up to 32767 pixels a side, the rectangle
    computed in double arithmetic, with the doubles nearest to 0.3, 0.2,
    0.4 and 0.6, is the exact one: no offset or size is off by one. *)
Theorem faceRect_double_exact (canvasWidth canvasHeight : Z) :
  (0 <= canvasWidth < 32768)%Z -> (0 <= canvasHeight < 32768)%Z ->
  DoubleRect.faceRect canvasWidth canvasHeight
  = faceRect canvasWidth canvasHeight.
Proof.
  intros HW HH.
  pose proof (tenths_agree canvasWidth HW) as EW.
  pose proof (tenths_agree canvasHeight HH) as EH.
  unfold DoubleRect.faceRect, faceRect in *.
  injection EW as EW1 _ EW2 _. injection EH as _ EH1 _ EH2.
  now rewrite EW1, EW2, EH1, EH2.
Qed.

Lemma faceRect_double_exact_witness :
  DoubleRect.faceRect 1920 1080 = faceRect 1920 1080.
Proof. apply (faceRect_double_exact 1920 1080); lia. Defined.


(* ================================================================== *)
(** * The analysis of an uploaded image: facts *)
(* ================================================================== *)

(** The double of a byte [parseInt] has read is the double of the byte. *)
Lemma ofNum_byte (n : Z) :
  (0 <= n <= 255)%Z -> Double.ofNum (of_Z n) = Double.ofZ n.
Proof.
  intros Hn.
  assert (Hall : Forall (fun n => Double.ofNum (of_Z n) = Double.ofZ n)
                        (upFrom 0 256)).
  { set (l := upFrom 0 256). vm_compute in l. subst l.
    repeat constructor. }
  rewrite Forall_forall in Hall. apply Hall, upFrom_In. lia.
Qed.

Lemma sampledColour_inRange (c : string) :
  sampledColour c ->
  let '(r, g, b) := hexChannels c in
  hslInRange (rgbToHsl (Double.ofNum r) (Double.ofNum g) (Double.ofNum b)).
Proof.
  intros (r & g & b & -> & Hr & Hg & Hb).
  rewrite !ofNum_byte by lia.
  apply hslChecked_inRange, hslChecked_byte; lia.
Qed.

Section ProcessImageFacts.

Variable Math_sqrt : Q -> Q.
Variable Math_random : nat -> Q.
Hypothesis random_unit : forall n, (0 <= Math_random n /\ Math_random n < 1)%Q.

(** X13.  Whatever the canvas, [processImage] never reports that it could
    not detect the face region: [detectFaceRegion] returns null only
    without a 2D context, which [processImage] has ruled out before. *)
Theorem processImage_never_lacks_region (canvas : Canvas.t) :
  processImage Math_sqrt Math_random canvas
  <> Failed "Could not detect face region in the image".
Proof.
  unfold processImage, detectFaceRegion.
  destruct (Canvas.getContext canvas) as [ctx |]; [| discriminate].
  destruct (getImageData ctx 0 0 _ _) as [full |]; [| discriminate].
  destruct (faceRect _ _) as [[[x y] w] h].
  destruct (getImageData ctx x y w h) as [region |]; [| discriminate].
  destruct (extractDominantColors _ _ _ _) as [colors | e]; [| discriminate].
  destruct (List.length colors =? 0)%nat; [discriminate |].
  destruct (analyzeSkinTone colors); discriminate.
Qed.

(** X14.  On a face region, [processImage] fails with the message that it
    could not extract skin tone colours when no sampled pixel of the
    region survives the filter.  Otherwise it yields the analysis of 14
    dominant colours, each a well-formed string that decodes to three
    integers of [31, 249] and converts to a hue in [0, 360), a saturation
    and a lightness in [0, 100]: the classifier is never run on an empty
    list or on an unreadable colour. *)
Theorem processImage_outcome (canvas : Canvas.t) (region : ImageData.t) :
  detectFaceRegion canvas = Region region ->
  ((forall j, (16 * j < List.length (ImageData.data region))%nat ->
              survivesAt (ImageData.data region) j = false) ->
   processImage Math_sqrt Math_random canvas
   = Failed "Could not extract skin tone colors from the image")
  /\ (~ (forall j, (16 * j < List.length (ImageData.data region))%nat ->
                   survivesAt (ImageData.data region) j = false) ->
      exists a,
        processImage Math_sqrt Math_random canvas = Analysed a
        /\ analyzeSkinTone (dominantColors a) = Normal a
        /\ List.length (dominantColors a) = 14%nat
        /\ Forall (fun c => wellFormedHex c = true /\ sampledColour c)
                  (dominantColors a)
        /\ Forall hslInRange (colorHSLs (dominantColors a))).
Proof.
  intros Hregion.
  assert (Hctx : exists ctx, Canvas.getContext canvas = Some ctx).
  { unfold detectFaceRegion in Hregion.
    destruct (Canvas.getContext canvas) as [ctx |]; [now exists ctx |].
    discriminate. }
  destruct Hctx as [ctx Hctx].
  unfold processImage. rewrite Hctx, Hregion.
  rewrite <- samplePixels_nil. split.
  - intros E. unfold extractDominantColors. now rewrite E.
  - intros Hne.
    destruct (extractDominantColors_centroids Math_sqrt Math_random
                random_unit (ImageData.data region) 14)
      as (cs & -> & Hlen & Hrange); [lia | assumption |].
    set (colors := map _ cs).
    assert (Hcolors : List.length colors = 14%nat)
      by (unfold colors; now rewrite length_map).
    rewrite Hcolors. cbn [Nat.eqb].
    rewrite analyzeSkinTone_Normal. cbn [dominantColors].
    assert (Hwf : Forall (fun c => wellFormedHex c = true /\ sampledColour c)
                         colors).
    { unfold colors. apply Forall_map.
      eapply Forall_impl; [| exact Hrange].
      intros [[r g] b] (Hr & Hg & Hb).
      apply centroid_channel in Hr, Hg, Hb.
      destruct Hr as [Hr Hr'], Hg as [Hg Hg'], Hb as [Hb Hb'].
      split; [now apply rgbToHex_wellFormed |].
      exists (roundZ r), (roundZ g), (roundZ b).
      split; [| repeat split; lia].
      rewrite rgbToHex_bytes by assumption.
      apply hexChannels_twoDigits; lia. }
    eexists.
    split; [reflexivity |].
    split; [apply analyzeSkinTone_Normal |].
    split; [exact Hcolors |].
    split; [exact Hwf |].
    unfold colorHSLs. apply Forall_map.
    eapply Forall_impl; [| exact Hwf].
    intros c [_ Hc]. apply sampledColour_inRange in Hc.
    now destruct (hexChannels c) as [[r g] b].
Qed.

End ProcessImageFacts.

Lemma processImage_outcome_witness :
  exists a,
    processImage sqrt_dyadic demo_random skin_canvas = Analysed a
    /\ analyzeSkinTone (dominantColors a) = Normal a
    /\ List.length (dominantColors a) = 14%nat
    /\ Forall (fun c => wellFormedHex c = true /\ sampledColour c)
              (dominantColors a)
    /\ Forall hslInRange (colorHSLs (dominantColors a)).
Proof.
  destruct (processImage_outcome sqrt_dyadic demo_random demo_random_unit
              skin_canvas
              (ImageData.mk
                 (List.concat (repeat [200; 150; 120; 255]%Z 96)) 16 6))
    as [_ Hsome]; [vm_compute; reflexivity |].
  apply Hsome. intros Hall.
  assert (H : survivesAt
                (List.concat (repeat [200; 150; 120; 255]%Z 96)) 0 = false)
    by (apply Hall; vm_compute; lia).
  vm_compute in H. discriminate H.
Defined.

(* ================================================================== *)
(** * The upload zone: facts *)
(* ================================================================== *)

Lemma handleDrop_first_image (files : list File.t) (file : File.t) :
  handleDrop files = Some file ->
  exists before after,
    files = (before ++ file :: after)%list
    /\ Forall (fun f => isImage f = false) before
    /\ isImage file = true.
Proof.
  unfold handleDrop. fold isImage.
  induction files as [| f files IH]; cbn [find]; [discriminate |].
  destruct (isImage f) eqn:E.
  - intros H. injection H as <-.
    exists [], files. repeat split; [constructor | assumption].
  - intros H. destruct (IH H) as (before & after & -> & Hb & Hf).
    exists (f :: before), after. repeat split; [| assumption].
    now constructor.
Qed.

(** X15.  Neither handler ever passes on a file that is not an image.  A
    drop passes on the first image of the dropped files, and nothing only
    when there is none; the file input looks at the first file alone, so
    an image behind another file is not passed on. *)
Theorem upload_only_images (files : list File.t) :
  (forall file, handleDrop files = Some file ->
     exists before after,
       files = (before ++ file :: after)%list
       /\ Forall (fun f => isImage f = false) before
       /\ isImage file = true)
  /\ (handleDrop files = None
      <-> Forall (fun f => isImage f = false) files)
  /\ (forall file, handleFileInput (Some files) = Some file
      <-> (exists rest, files = file :: rest) /\ isImage file = true)
  /\ handleFileInput None = None.
Proof.
  split; [intros file; apply handleDrop_first_image |].
  split; [| split; [| reflexivity]].
  - unfold handleDrop. fold isImage. split.
    + intros H. apply Forall_forall. intros f Hf.
      now apply (find_none _ _ H).
    + intros H. induction H as [| f files Hf _ IH]; cbn [find];
        [reflexivity | now rewrite Hf].
  - intros file. unfold handleFileInput, isImage.
    destruct files as [| f files]; cbn [nth_error].
    + split; [discriminate | intros [[rest H] _]; discriminate].
    + destruct (startsWith (File.type f) "image/") eqn:E.
      * split.
        -- intros H. injection H as <-. split; [now exists files | assumption].
        -- intros [[rest H] _]. inversion H. reflexivity.
      * split; [discriminate |].
        intros [[rest H] Hi]. inversion H. subst. congruence.
Qed.


(* ================================================================== *)
(** * Samples and result *)
(* ================================================================== *)

Local Close Scope string_scope.

Lemma survivorAt_rgbaAt (data1 data2 : list Z) (j : nat) :
  rgbaAt data1 (4 * j) = rgbaAt data2 (4 * j) ->
  survivorAt data1 j = survivorAt data2 j.
Proof.
  intros H. unfold survivorAt. now rewrite H.
Qed.

(** X17.  The result depends on the buffer only through its length and
    its pixels of index 0, 4, 8, ...: the other three pixels out of four
    are never read. *)
Theorem extractDominantColors_reads_every_fourth
    (Math_sqrt : Q -> Q) (Math_random : nat -> Q)
    (data1 data2 : list Z) (k : nat) :
  List.length data1 = List.length data2 ->
  (forall j, rgbaAt data1 (4 * j) = rgbaAt data2 (4 * j)) ->
  extractDominantColors Math_sqrt Math_random data1 k
  = extractDominantColors Math_sqrt Math_random data2 k.
Proof.
  intros Hlen Hsame.
  assert (E : samplePixels data1 = samplePixels data2).
  { pose proof (sampleLoop_flat_map data1 (List.length data1) 0 []) as H1.
    pose proof (sampleLoop_flat_map data2 (List.length data2) 0 []) as H2.
    rewrite Nat.mul_0_r, Nat.sub_0_r in H1, H2.
    unfold samplePixels. rewrite H1, H2 by lia.
    unfold sampleCount. rewrite Hlen. f_equal.
    apply flat_map_ext. intros j. now apply survivorAt_rgbaAt. }
  unfold extractDominantColors. now rewrite E.
Qed.

Lemma extractDominantColors_reads_every_fourth_witness :
  extractDominantColors sqrt_dyadic demo_random demo_data 3
  = extractDominantColors sqrt_dyadic demo_random demo_data_repainted 3.
Proof.
  apply (extractDominantColors_reads_every_fourth sqrt_dyadic demo_random
           demo_data demo_data_repainted 3).
  - reflexivity.
  - intros j.
    do 4 (destruct j as [| j]; [reflexivity |]).
    assert (H1 : nth_error demo_data (4 * (4 * S (S (S (S j))))) = None).
    { apply nth_error_None.
      change (List.length demo_data) with 52%nat. lia. }
    assert (H2 : nth_error demo_data_repainted (4 * (4 * S (S (S (S j)))))
                 = None).
    { apply nth_error_None.
      change (List.length demo_data_repainted) with 52%nat. lia. }
    unfold rgbaAt. now rewrite H1, H2.
Defined.
